(** * Tensor copy insertion (MLIR bufferization): escape annotation and
      conflict resolution driver

    Shallow embedding of
    [mlir/lib/Dialect/Bufferization/Transforms/TensorCopyInsertion.cpp].

    The C++ code works on a pointer-based, mutable IR.  The embedding
    separates
    - the _structure_ of the operation tree (an [Operation] with its
      results and nested regions), which the driver only reads, from
    - the _mutable store_ [IR]: the attribute dictionary of every
      operation, keyed by the operation's identity, and the operations
      that the rewriter has spliced into the program.
    An [Operation *] of the source is an [Operation] value whose [opId]
    is the key into the store.  Operations created through the rewriter
    are placed in front of the operation being handled; they are recorded
    in the store and are not part of the tree that is being traversed. *)

From stdpp Require Import base option list strings gmap.

(** ** Results of the C++ support library *)

Inductive LogicalResult : Type := success | failure.

(** [failed(r)]. *)
Definition failed (r : LogicalResult) : bool :=
  match r with failure => true | success => false end.

(** [failure(bool isFailure)]. *)
Definition failureIf (isFailure : bool) : LogicalResult :=
  if isFailure then failure else success.

Inductive WalkResult : Type := Interrupt | Advance | Skip.

Definition wasInterrupted (r : WalkResult) : bool :=
  match r with Interrupt => true | _ => false end.

(** ** Types, results, attributes, operations *)

Inductive MLIRType : Type :=
| RankedTensorType (shape : list Z)
| UnrankedTensorType
| MemRefType (shape : list Z)
| IndexType
| IntegerType (width : nat)
| FloatType (width : nat).

(** [type.isa<TensorType>()]. *)
Definition isaTensorType (t : MLIRType) : bool :=
  match t with
  | RankedTensorType _ | UnrankedTensorType => true
  | _ => false
  end.

Definition OpId := nat.

(** An [OpResult] knows its owner, its position among the owner's results
    and its type. *)
Record OpResult : Type := mkOpResult {
  resultOwner : OpId;
  resultNumber : nat;
  getType : MLIRType
}.

Inductive Attribute : Type :=
| UnitAttr
| IntegerAttr (value : Z)
| StringAttr (value : string)
| BoolArrayAttr (values : list bool).

(** An operation: identity, name, results in result order, and nested
    regions; a region lists its operations in program order. *)
#[local] Unset Elimination Schemes.
Inductive Operation : Type := mkOperation {
  opId : OpId;
  opName : string;
  getOpResults : list OpResult;
  getRegions : list (list Operation)
}.
#[local] Set Elimination Schemes.

(** The mutable part of the program. [insertedOps] records, in insertion
    order, every operation created through the rewriter together with the
    operation it was placed in front of. *)
Record IR : Type := mkIR {
  opAttrs : gmap OpId (gmap string Attribute);
  insertedOps : list (OpId * Operation)
}.

Definition getAttrDictionary (ir : IR) (op : Operation) : gmap string Attribute :=
  default ∅ (opAttrs ir !! opId op).

Definition getAttr (ir : IR) (op : Operation) (name : string) : option Attribute :=
  getAttrDictionary ir op !! name.

Definition hasAttr (ir : IR) (op : Operation) (name : string) : bool :=
  match getAttr ir op name with Some _ => true | None => false end.

Definition setAttr (ir : IR) (op : Operation) (name : string) (value : Attribute) : IR :=
  {| opAttrs := <[opId op := <[name := value]> (getAttrDictionary ir op)]> (opAttrs ir);
     insertedOps := insertedOps ir |}.

(** The rewriter: only its insertion point matters to the driver. *)
Record IRRewriter : Type := mkIRRewriter {
  insertionPoint : option OpId
}.

(** [IRRewriter rewriter(op->getContext())]: no insertion point yet. *)
Definition newIRRewriter : IRRewriter := {| insertionPoint := None |}.

Definition setInsertionPoint (rewriter : IRRewriter) (op : Operation) : IRRewriter :=
  {| insertionPoint := Some (opId op) |}.

(** [rewriter.getBoolArrayAttr(values)]. *)
Definition getBoolArrayAttr (values : list bool) : Attribute := BoolArrayAttr values.

(** ** Options, analysis state, capability interface *)

Record OneShotBufferizationOptions : Type := mkOptions {
  allowReturnAllocs : bool;
  bufferizeFunctionBoundaries : bool;
  createDeallocs : bool;
  testAnalysisOnly : bool
}.

(** The analysis state as the driver sees it: the options it was built
    with and the read-only verdicts.  [OneShotAnalysisState] is used
    through this interface, so one record stands for both classes. *)
Record AnalysisState : Type := mkAnalysisState {
  getOptions : OneShotBufferizationOptions;
  isTensorYielded : OpResult -> bool;
  isInPlace : OpId -> nat -> bool
}.

(** [BufferizableOpInterface]: what a participating operation provides.
    [resolveConflicts] receives the rewriter by reference and mutates the
    program, hence the rewriter and the store are threaded through. *)
Record BufferizableOpInterface : Type := mkBufferizableOp {
  bufferizesToAllocation : OpResult -> bool;
  resolveConflicts :
    IRRewriter -> AnalysisState -> IR -> LogicalResult * (IRRewriter * IR)
}.

(** ** Traversal of the operation tree *)

Section Walk.
Context {S : Type}.

(** Runs [f] on the elements of a list from left to right, threading the
    state, and stops at the first interrupt. *)
Definition walkEach {A : Type} (f : A -> S -> WalkResult * S)
  : list A -> S -> WalkResult * S :=
  fix go (l : list A) (s : S) : WalkResult * S :=
    match l with
    | [] => (Advance, s)
    | x :: l' =>
        match f x s with
        | (Interrupt, s') => (Interrupt, s')
        | (_, s') => go l' s'
        end
    end.

(** Modelled from the spec: [Operation::walk] is declared in the IR
    library, outside the translated file.  The spec (4.2) describes it
    as a pre-order traversal of the tree rooted at the operation: the
    callback runs on an operation before the operations nested in its
    regions, regions and the operations of a region are taken from left
    to right, a callback result [Skip] skips only the operation itself
    and the traversal still descends into its regions, and [Interrupt]
    aborts the whole traversal. *)
Fixpoint walk (callback : Operation -> S -> WalkResult * S)
    (op : Operation) (s : S) {struct op} : WalkResult * S :=
  match callback op s with
  | (Interrupt, s') => (Interrupt, s')
  | (_, s') => walkEach (walkEach (walk callback)) (getRegions op) s'
  end.

Definition walkRegion (callback : Operation -> S -> WalkResult * S)
  : list Operation -> S -> WalkResult * S :=
  walkEach (walk callback).

Definition walkRegions (callback : Operation -> S -> WalkResult * S)
  : list (list Operation) -> S -> WalkResult * S :=
  walkEach (walkRegion callback).
End Walk.

(** ** The pass *)

(** Collaborators that live outside the translated file. *)
Class ExternalInterfaces : Type := {
  (** [BufferizationDialect::kEscapeAttrName]. *)
  kEscapeAttrName : string;
  (** [options.dynCastBufferizableOp(op)]: the capability interface of
      [op], or nothing when [op] does not take part in bufferization. *)
  dynCastBufferizableOp :
    OneShotBufferizationOptions -> Operation -> option BufferizableOpInterface;
  (** [OneShotAnalysisState state(op, options)]. *)
  newOneShotAnalysisState :
    Operation -> OneShotBufferizationOptions -> AnalysisState;
  (** [analyzeOp(op, state)] and [analyzeModuleOp(moduleOp, state)]: both
      update the analysis state in place and may touch the program. *)
  analyzeOp :
    Operation -> AnalysisState -> IR -> LogicalResult * (AnalysisState * IR);
  analyzeModuleOp :
    Operation -> AnalysisState -> IR -> LogicalResult * (AnalysisState * IR)
}.

(** [isa<ModuleOp>(op)]. *)
Definition isaModuleOp (op : Operation) : bool :=
  bool_decide (opName op = "builtin.module"%string).

(** Modelled from the spec: [cast<ModuleOp>(op)] comes from the support
    library, outside the translated file.  It is a checked cast: it
    yields the module when the operation is one, and has no defined
    result (an assertion fails) otherwise. *)
Definition castModuleOp (op : Operation) : option Operation :=
  if isaModuleOp op then Some op else None.

Section TensorCopyInsertion.
Context `{!ExternalInterfaces}.

(** Lines 59-69: the body of the loop over the results.  The
    accumulator is the pair [(escapeAttrValue, foundTensorResult)];
    [push_back] appends. *)
Definition escapeLoopBody (state : AnalysisState)
    (bufferizableOp : BufferizableOpInterface)
    (acc : list bool * bool) (opResult : OpResult) : list bool * bool :=
  let '(escapeAttrValue, foundTensorResult) := acc in
  if negb (isaTensorType (getType opResult))
     || negb (bufferizesToAllocation bufferizableOp opResult)
  then (escapeAttrValue ++ [false], foundTensorResult)
  else
    let escape := negb (createDeallocs (getOptions state))
                  || isTensorYielded state opResult in
    (escapeAttrValue ++ [escape], true).

(** Lines 57-69. *)
Definition escapeLoop (state : AnalysisState)
    (bufferizableOp : BufferizableOpInterface) (op : Operation)
  : list bool * bool :=
  foldl (escapeLoopBody state bufferizableOp) ([], false) (getOpResults op).

(** Lines 56-72: add the escape attribute when it is missing. *)
Definition annotateEscape (state : AnalysisState)
    (bufferizableOp : BufferizableOpInterface) (op : Operation) (ir : IR) : IR :=
  if negb (hasAttr ir op kEscapeAttrName) then
    let '(escapeAttrValue, foundTensorResult) :=
      escapeLoop state bufferizableOp op in
    if foundTensorResult
    then setAttr ir op kEscapeAttrName (getBoolArrayAttr escapeAttrValue)
    else ir
  else ir.

(** Lines 49-81: the callback handed to [walk]. *)
Definition walkCallback (state : AnalysisState) (op : Operation)
    (s : IRRewriter * IR) : WalkResult * (IRRewriter * IR) :=
  let '(rewriter, ir) := s in
  match dynCastBufferizableOp (getOptions state) op with
  | None => (Skip, (rewriter, ir))
  | Some bufferizableOp =>
      let ir := annotateEscape state bufferizableOp op ir in
      let rewriter := setInsertionPoint rewriter op in
      let '(resolved, s') := resolveConflicts bufferizableOp rewriter state ir in
      if failed resolved then (Interrupt, s') else (Advance, s')
  end.

(** Lines 43-84: [insertTensorCopies(Operation *, const AnalysisState &)]. *)
Definition insertTensorCopies_state (op : Operation) (state : AnalysisState)
    (ir : IR) : LogicalResult * IR :=
  let rewriter := newIRRewriter in
  let '(result, (_, ir')) := walk (walkCallback state) op (rewriter, ir) in
  (failureIf (wasInterrupted result), ir').

(** Lines 23-41: [insertTensorCopies(Operation *, const
    OneShotBufferizationOptions &)].  [None] is the undefined outcome of
    a failed checked cast. *)
Definition insertTensorCopies_options (op : Operation)
    (options : OneShotBufferizationOptions) (ir : IR)
  : option (LogicalResult * IR) :=
  let state := newOneShotAnalysisState op options in
  let analysed :=
    if bufferizeFunctionBoundaries options then
      moduleOp ← castModuleOp op;
      Some (analyzeModuleOp moduleOp state ir)
    else
      Some (analyzeOp op state ir) in
  '(analysis, (state, ir)) ← analysed;
  if failed analysis then Some (failure, ir)
  else if testAnalysisOnly options then Some (success, ir)
  else Some (insertTensorCopies_state op state ir).

End TensorCopyInsertion.

(** ** Vocabulary of the specification *)

(** The operations of a tree listed parents first, regions and the
    operations of a region from left to right. *)
Fixpoint preorder (op : Operation) : list Operation :=
  op :: flat_map (flat_map preorder) (getRegions op).

(** [nestedIn d o]: [d] sits, at any depth, inside a region of [o]. *)
Inductive nestedIn : Operation -> Operation -> Prop :=
| nested_direct d o region :
    region ∈ getRegions o -> d ∈ region -> nestedIn d o
| nested_deeper d c o region :
    region ∈ getRegions o -> c ∈ region -> nestedIn d c -> nestedIn d o.

Definition inTree (o root : Operation) : Prop := o = root \/ nestedIn o root.

(** [before l x y]: some occurrence of [x] in [l] precedes some
    occurrence of [y]. *)
Definition before {A : Type} (l : list A) (x y : A) : Prop :=
  exists l1 l2 l3, l = l1 ++ x :: l2 ++ y :: l3.

(** Operations are distinct objects: no two operations of the tree share
    an identity. *)
Definition distinctOps (root : Operation) : Prop :=
  NoDup (opId <$> preorder root).

(** Wraps a callback so that it also records, in call order, the
    operations it is run on. *)
Definition logged {S : Type} (callback : Operation -> S -> WalkResult * S)
    (op : Operation) (sl : S * list Operation)
  : WalkResult * (S * list Operation) :=
  let '(r, s') := callback op sl.1 in (r, (s', sl.2 ++ [op])).

(** The operations the callback is run on during a walk from [root]. *)
Definition visited {S : Type} (callback : Operation -> S -> WalkResult * S)
    (root : Operation) (s : S) : list Operation :=
  (walk (logged callback) root (s, [])).2.2.

(** A result takes part in escape tracking when it is a tensor and the
    operation claims to allocate for it. *)
Definition qualifies (bufferizableOp : BufferizableOpInterface)
    (opResult : OpResult) : bool :=
  isaTensorType (getType opResult)
  && bufferizesToAllocation bufferizableOp opResult.

(** The entry the specification asks for: [false] for a result that does
    not qualify, otherwise "deallocation is disabled, or the result is
    yielded". *)
Definition expectedEscape (state : AnalysisState)
    (bufferizableOp : BufferizableOpInterface) (opResult : OpResult) : bool :=
  if qualifies bufferizableOp opResult
  then negb (createDeallocs (getOptions state)) || isTensorYielded state opResult
  else false.

Section DriverVocabulary.
Context `{!ExternalInterfaces}.

(** The operations the driver's callback is run on, in call order. *)
Definition visitedOps (state : AnalysisState) (root : Operation) (ir : IR)
  : list Operation :=
  visited (walkCallback state) root (newIRRewriter, ir).

(** The conflict resolution of [o], asked in state [s], fails and leaves
    the program in state [s']. *)
Definition resolveFailsAt (state : AnalysisState) (o : Operation)
    (s s' : IRRewriter * IR) : Prop :=
  exists bufferizableOp,
    dynCastBufferizableOp (getOptions state) o = Some bufferizableOp /\
    resolveConflicts bufferizableOp (setInsertionPoint s.1 o) state
      (annotateEscape state bufferizableOp o s.2) = (failure, s').

(** The upstream analysis chosen by the options: the module analysis
    when function boundaries are bufferized (it needs a module), the
    single-scope analysis otherwise. *)
Definition upstreamAnalysis (op : Operation)
    (options : OneShotBufferizationOptions) (ir : IR)
  : option (LogicalResult * (AnalysisState * IR)) :=
  let state := newOneShotAnalysisState op options in
  if bufferizeFunctionBoundaries options then
    if isaModuleOp op then Some (analyzeModuleOp op state ir) else None
  else Some (analyzeOp op state ir).
End DriverVocabulary.

(** ** A sample program *)

Module Sample.

Definition tensorOf4 : MLIRType := RankedTensorType [4%Z].

Definition allocOp : Operation :=
  mkOperation 2 "bufferization.alloc_tensor" [mkOpResult 2 0 tensorOf4] [].
Definition fillOp : Operation :=
  mkOperation 3 "linalg.fill" [mkOpResult 3 0 tensorOf4] [].
(** Two results: a size, which is no tensor, and a freshly allocated
    tensor. *)
Definition sizeAndAllocOp : Operation :=
  mkOperation 4 "test.size_and_alloc"
    [mkOpResult 4 0 IndexType; mkOpResult 4 1 UnrankedTensorType] [].
Definition returnOp : Operation := mkOperation 5 "func.return" [] [].
Definition unresolvableOp : Operation :=
  mkOperation 6 "test.unresolvable" [mkOpResult 6 0 tensorOf4] [].

Definition funcOp : Operation :=
  mkOperation 1 "func.func" [] [[allocOp; fillOp; sizeAndAllocOp; returnOp]].
Definition moduleOp : Operation := mkOperation 0 "builtin.module" [] [[funcOp]].

Definition brokenFuncOp : Operation :=
  mkOperation 1 "func.func" [] [[allocOp; unresolvableOp; fillOp; returnOp]].
Definition brokenModuleOp : Operation :=
  mkOperation 0 "builtin.module" [] [[brokenFuncOp]].

(** The copy that [linalg.fill] asks for when it may not work in place. *)
Definition copyFor (op : Operation) : Operation :=
  mkOperation (100 + opId op) "bufferization.alloc_tensor"
    [mkOpResult (100 + opId op) 0 tensorOf4] [].

Definition insertBefore (rewriter : IRRewriter) (newOp : Operation) (ir : IR) : IR :=
  match insertionPoint rewriter with
  | Some target =>
      {| opAttrs := opAttrs ir; insertedOps := insertedOps ir ++ [(target, newOp)] |}
  | None => ir
  end.

Definition allocInterface : BufferizableOpInterface :=
  {| bufferizesToAllocation := fun _ => true;
     resolveConflicts := fun rewriter _ ir => (success, (rewriter, ir)) |}.

Definition fillInterface (op : Operation) : BufferizableOpInterface :=
  {| bufferizesToAllocation := fun _ => false;
     resolveConflicts := fun rewriter state ir =>
       if isInPlace state (opId op) 0 then (success, (rewriter, ir))
       else (success, (rewriter, insertBefore rewriter (copyFor op) ir)) |}.

Definition unresolvableInterface : BufferizableOpInterface :=
  {| bufferizesToAllocation := fun _ => true;
     resolveConflicts := fun rewriter _ ir => (failure, (rewriter, ir)) |}.

Definition sampleDynCast (options : OneShotBufferizationOptions)
    (op : Operation) : option BufferizableOpInterface :=
  if bool_decide (opName op = "bufferization.alloc_tensor"%string) then Some allocInterface
  else if bool_decide (opName op = "test.size_and_alloc"%string) then Some allocInterface
  else if bool_decide (opName op = "linalg.fill"%string) then Some (fillInterface op)
  else if bool_decide (opName op = "test.unresolvable"%string) then Some unresolvableInterface
  else None.

Definition sampleNewState (op : Operation)
    (options : OneShotBufferizationOptions) : AnalysisState :=
  {| getOptions := options;
     isTensorYielded := fun _ => false;
     isInPlace := fun _ _ => true |}.

(** The sample analysis finds that the tensor of operation 4 is yielded
    and that the fill cannot work in place; it rejects an operation
    named [test.unsupported]. *)
Definition sampleAnalyze (op : Operation) (state : AnalysisState) (ir : IR)
  : LogicalResult * (AnalysisState * IR) :=
  if bool_decide (opName op = "test.unsupported"%string) then (failure, (state, ir))
  else
    (success,
     ({| getOptions := getOptions state;
         isTensorYielded := fun r => bool_decide (resultOwner r = 4);
         isInPlace := fun owner _ => negb (bool_decide (owner = 3)) |},
      ir)).

Definition sampleInterfaces : ExternalInterfaces :=
  {| kEscapeAttrName := "bufferization.escape";
     dynCastBufferizableOp := sampleDynCast;
     newOneShotAnalysisState := sampleNewState;
     analyzeOp := sampleAnalyze;
     analyzeModuleOp := sampleAnalyze |}.

Definition withDeallocs : OneShotBufferizationOptions :=
  {| allowReturnAllocs := false; bufferizeFunctionBoundaries := true;
     createDeallocs := true; testAnalysisOnly := false |}.
Definition withoutDeallocs : OneShotBufferizationOptions :=
  {| allowReturnAllocs := true; bufferizeFunctionBoundaries := false;
     createDeallocs := false; testAnalysisOnly := false |}.
Definition analysisOnly : OneShotBufferizationOptions :=
  {| allowReturnAllocs := false; bufferizeFunctionBoundaries := true;
     createDeallocs := true; testAnalysisOnly := true |}.

Definition analysed (options : OneShotBufferizationOptions) : AnalysisState :=
  (sampleAnalyze moduleOp (sampleNewState moduleOp options) (mkIR ∅ [])).2.1.

Definition emptyIR : IR := mkIR ∅ [].

(** A program in which the allocation already carries a hand-written
    escape attribute. *)
Definition annotatedIR : IR :=
  setAttr emptyIR allocOp "bufferization.escape" (BoolArrayAttr [true]).

Definition unsupportedOp : Operation := mkOperation 7 "test.unsupported" [] [].

End Sample.

(** ** The pass wrapper *)

(** [TensorCopyInsertionPass] (lines 87-115).  The three flags are the
    pass options of the generated base class; [passOptions] is the
    private member [options]. *)
Record TensorCopyInsertionPass : Type := mkTensorCopyInsertionPass {
  passAllowReturnAllocs : bool;
  passBufferizeFunctionBoundaries : bool;
  passCreateDeallocs : bool;
  passOptions : option OneShotBufferizationOptions
}.

(** Lines 118-120: [createTensorCopyInsertionPass()]; the flags are
    whatever the pass manager has parsed into the base class. *)
Definition createTensorCopyInsertionPass
    (allowReturnAllocsFlag bufferizeFunctionBoundariesFlag createDeallocsFlag : bool)
  : TensorCopyInsertionPass :=
  {| passAllowReturnAllocs := allowReturnAllocsFlag;
     passBufferizeFunctionBoundaries := bufferizeFunctionBoundariesFlag;
     passCreateDeallocs := createDeallocsFlag;
     passOptions := None |}.

(** Lines 122-125: [createTensorCopyInsertionPass(options)]. *)
Definition createTensorCopyInsertionPass_options
    (options : OneShotBufferizationOptions)
    (allowReturnAllocsFlag bufferizeFunctionBoundariesFlag createDeallocsFlag : bool)
  : TensorCopyInsertionPass :=
  {| passAllowReturnAllocs := allowReturnAllocsFlag;
     passBufferizeFunctionBoundaries := bufferizeFunctionBoundariesFlag;
     passCreateDeallocs := createDeallocsFlag;
     passOptions := Some options |}.

Section PassWrapper.
Context `{!ExternalInterfaces}.

(** The value of a default-constructed [OneShotBufferizationOptions];
    the constructor is declared outside the translated file. *)
Variable defaultOptions : OneShotBufferizationOptions.

(** Lines 99-111: [runOnOperation].  The boolean of the result tells
    whether [signalPassFailure] was called; [None] is the undefined
    outcome inherited from the entry point. *)
Definition runOnOperation (pass : TensorCopyInsertionPass)
    (getOperation : Operation) (ir : IR) : option (bool * IR) :=
  match passOptions pass with
  | Some options =>
      '(result, ir') ← insertTensorCopies_options getOperation options ir;
      Some (failed result, ir')
  | None =>
      let options := defaultOptions in
      let options :=
        {| allowReturnAllocs := passAllowReturnAllocs pass;
           bufferizeFunctionBoundaries := bufferizeFunctionBoundaries options;
           createDeallocs := createDeallocs options;
           testAnalysisOnly := testAnalysisOnly options |} in
      let options :=
        {| allowReturnAllocs := allowReturnAllocs options;
           bufferizeFunctionBoundaries := passBufferizeFunctionBoundaries pass;
           createDeallocs := createDeallocs options;
           testAnalysisOnly := testAnalysisOnly options |} in
      let options :=
        {| allowReturnAllocs := allowReturnAllocs options;
           bufferizeFunctionBoundaries := bufferizeFunctionBoundaries options;
           createDeallocs := passCreateDeallocs pass;
           testAnalysisOnly := testAnalysisOnly options |} in
      '(result, ir') ← insertTensorCopies_options getOperation options ir;
      Some (failed result, ir')
  end.
End PassWrapper.

(** ** Further vocabulary *)

Section AnnotationVocabulary.
Context `{!ExternalInterfaces}.

(** What a visit of [o] does to the attributes when the conflict
    resolution leaves them alone: the annotator runs on a bufferizable
    operation, nothing happens on any other. *)
Definition annotateVisited (state : AnalysisState) (ir : IR) (o : Operation) : IR :=
  match dynCastBufferizableOp (getOptions state) o with
  | Some bufferizableOp => annotateEscape state bufferizableOp o ir
  | None => ir
  end.

(** The annotator run over a sequence of operations, from left to right. *)
Definition annotateAll (state : AnalysisState) (l : list Operation) (ir : IR) : IR :=
  foldl (annotateVisited state) ir l.

(** No conflict resolution of an operation of the tree changes an
    attribute dictionary. *)
Definition resolversKeepAttrs (state : AnalysisState) (root : Operation) : Prop :=
  forall o bufferizableOp rewriter ir,
    inTree o root ->
    dynCastBufferizableOp (getOptions state) o = Some bufferizableOp ->
    opAttrs (resolveConflicts bufferizableOp rewriter state ir).2.2 = opAttrs ir.


(** No operation of the tree is bufferizable. *)
Definition noneBufferizable (state : AnalysisState) (root : Operation) : Prop :=
  forall o, inTree o root -> dynCastBufferizableOp (getOptions state) o = None.
End AnnotationVocabulary.

(** ** A sample program without bufferizable operations *)

Module PlainSample.

Definition callOp : Operation := mkOperation 12 "func.call" [] [].
Definition plainReturnOp : Operation := mkOperation 13 "func.return" [] [].
Definition plainFuncOp : Operation :=
  mkOperation 11 "func.func" [] [[callOp; plainReturnOp]].
Definition plainModuleOp : Operation :=
  mkOperation 10 "builtin.module" [] [[plainFuncOp]].

(** An operation that belongs to no sample tree. *)
Definition strayOp : Operation :=
  mkOperation 20 "bufferization.alloc_tensor"
    [mkOpResult 20 0 UnrankedTensorType] [].

(** Options as a default-constructed record is taken to have them in the
    sample runs. *)
Definition sampleDefaults : OneShotBufferizationOptions :=
  {| allowReturnAllocs := false; bufferizeFunctionBoundaries := false;
     createDeallocs := true; testAnalysisOnly := false |}.

(** A rewriter that some earlier use has left pointing at operation 3. *)
Definition staleRewriter : IRRewriter := {| insertionPoint := Some 3 |}.

End PlainSample.

(** ** Structural induction on operation trees *)

Lemma Operation_ind (P : Operation -> Prop) :
  (forall id name results regions,
      Forall (Forall P) regions -> P (mkOperation id name results regions)) ->
  forall op, P op.
Proof.
  intros step. fix IH 1. intros [id name results regions].
  apply step.
  induction regions as [|region regions IHregions]; constructor; [|exact IHregions].
  induction region as [|o region IHregion]; constructor; [apply IH | exact IHregion].
Qed.

(** ** Facts about [preorder] *)

Lemma preorder_unfold op :
  preorder op = op :: flat_map (flat_map preorder) (getRegions op).
Proof. destruct op; reflexivity. Qed.

Lemma preorder_child o region c :
  region ∈ getRegions o -> c ∈ region ->
  exists l1 l2, preorder o = o :: l1 ++ preorder c ++ l2.
Proof.
  intros Hregion Hc.
  apply list_elem_of_split in Hregion as (rs1 & rs2 & Hrs).
  apply list_elem_of_split in Hc as (r1 & r2 & Hr).
  rewrite preorder_unfold, Hrs, Hr.
  exists (flat_map (flat_map preorder) rs1 ++ flat_map preorder r1),
         (flat_map preorder r2 ++ flat_map (flat_map preorder) rs2).
  rewrite flat_map_app. simpl. rewrite flat_map_app. simpl.
  rewrite <- !app_assoc. reflexivity.
Qed.

Lemma preorder_subtree o root :
  inTree o root -> exists l1 l2, preorder root = l1 ++ preorder o ++ l2.
Proof.
  intros [-> | Hnested].
  - exists [], []. rewrite app_nil_r. reflexivity.
  - induction Hnested as [d o region Hregion Hd | d c o region Hregion Hc _ IH].
    + destruct (preorder_child _ _ _ Hregion Hd) as (l1 & l2 & ->).
      exists (o :: l1), l2. reflexivity.
    + destruct (preorder_child _ _ _ Hregion Hc) as (l1 & l2 & ->).
      destruct IH as (k1 & k2 & ->).
      exists (o :: l1 ++ k1), (k2 ++ l2). simpl. f_equal.
      rewrite <- !app_assoc. reflexivity.
Qed.

Lemma preorder_elem d o : d ∈ preorder o <-> inTree d o.
Proof.
  split.
  - revert d. induction o as [id name results regions IH] using Operation_ind.
    intros d. rewrite preorder_unfold. simpl.
    rewrite elem_of_cons. intros [-> | Hin]; [left; reflexivity | right].
    apply list_elem_of_In, in_flat_map in Hin as (region & Hregion & Hin).
    apply in_flat_map in Hin as (c & Hc & Hin).
    apply list_elem_of_In in Hregion, Hc, Hin.
    rewrite Forall_forall in IH. specialize (IH _ Hregion).
    rewrite Forall_forall in IH. destruct (IH _ Hc _ Hin) as [-> | Hdeeper].
    + eapply nested_direct; [exact Hregion | exact Hc].
    + eapply nested_deeper; [exact Hregion | exact Hc | exact Hdeeper].
  - intros Htree. destruct (preorder_subtree _ _ Htree) as (l1 & l2 & ->).
    rewrite (preorder_unfold d), elem_of_app, elem_of_app, elem_of_cons. auto.
Qed.

Lemma nestedIn_trans d c o : nestedIn d c -> nestedIn c o -> nestedIn d o.
Proof.
  intros Hdc Hco.
  induction Hco as [c o region Hregion Hc | c c' o region Hregion Hc' _ IH].
  - eapply nested_deeper; eauto.
  - eapply nested_deeper; eauto.
Qed.

Lemma inTree_trans d c o : inTree d c -> inTree c o -> inTree d o.
Proof.
  intros [-> | Hdc] [-> | Hco]; [left | right | right | right]; auto.
  eapply nestedIn_trans; eauto.
Qed.

Lemma nestedIn_descendants d o :
  nestedIn d o -> d ∈ flat_map (flat_map preorder) (getRegions o).
Proof.
  intros Hnested. apply list_elem_of_In, in_flat_map.
  destruct Hnested as [d o region Hregion Hd | d c o region Hregion Hc Hdeeper];
    exists region; (split; [apply list_elem_of_In; exact Hregion |]);
    apply in_flat_map.
  - exists d. split; [apply list_elem_of_In; exact Hd |].
    apply list_elem_of_In, preorder_elem. left; reflexivity.
  - exists c. split; [apply list_elem_of_In; exact Hc |].
    apply list_elem_of_In, preorder_elem. right; exact Hdeeper.
Qed.

(** ** Facts about [before] *)

(** Brings both sides of an equation between concatenations into
    right-nested form. *)
Ltac normalize_app := repeat (progress (simpl; rewrite <- ?app_assoc)).

Lemma before_in_parts {A : Type} (x y : A) (front X mid Y back : list A) :
  x ∈ X -> y ∈ Y -> before (front ++ X ++ mid ++ Y ++ back) x y.
Proof.
  intros Hx Hy.
  apply list_elem_of_split in Hx as (x1 & x2 & ->).
  apply list_elem_of_split in Hy as (y1 & y2 & ->).
  exists (front ++ x1), (x2 ++ mid ++ y1), (y2 ++ back).
  normalize_app. reflexivity.
Qed.

Lemma NoDup_split_unique {A : Type} (x : A) (l1 l2 k1 k2 : list A) :
  NoDup (l1 ++ x :: l2) -> l1 ++ x :: l2 = k1 ++ x :: k2 -> l1 = k1 /\ l2 = k2.
Proof.
  revert k1. induction l1 as [|a l1 IH]; intros k1 Hnd Heq.
  - destruct k1 as [|b k1]; simpl in *.
    + split; congruence.
    + injection Heq as <- ->. apply NoDup_cons in Hnd as [Hnotin _].
      exfalso. apply Hnotin, elem_of_app. right. left.
  - destruct k1 as [|b k1]; simpl in *.
    + injection Heq as -> _. apply NoDup_cons in Hnd as [Hnotin _].
      exfalso. apply Hnotin, elem_of_app. right. left.
    + injection Heq as <- Heq. apply NoDup_cons in Hnd as [_ Hnd].
      destruct (IH _ Hnd Heq) as [-> ->]. split; reflexivity.
Qed.

Lemma before_prefix {A : Type} (v p : list A) (x y : A) :
  NoDup p -> v `prefix_of` p -> before p x y -> y ∈ v -> before v x y.
Proof.
  intros Hnd [rest ->] (l1 & l2 & l3 & Heq) Hy.
  apply list_elem_of_split in Hy as (v1 & v2 & ->).
  assert (Hsplit : (v1 ++ y :: v2) ++ rest = v1 ++ y :: (v2 ++ rest))
    by (rewrite <- app_assoc; reflexivity).
  rewrite Hsplit in Hnd, Heq.
  assert (Hshape : v1 ++ y :: (v2 ++ rest) = (l1 ++ x :: l2) ++ y :: l3)
    by (rewrite Heq, <- app_assoc; reflexivity).
  destruct (NoDup_split_unique _ _ _ _ _ Hnd Hshape) as [-> _].
  exists l1, l2, v2. rewrite <- app_assoc. reflexivity.
Qed.

Lemma distinctOps_NoDup root : distinctOps root -> NoDup (preorder root).
Proof. apply NoDup_fmap_1. Qed.

(** A parent comes before everything nested in it. *)
Lemma preorder_parent_first o d root :
  inTree o root -> nestedIn d o -> before (preorder root) o d.
Proof.
  intros Ho Hd. destruct (preorder_subtree _ _ Ho) as (l1 & l2 & ->).
  rewrite (preorder_unfold o).
  pose proof (nestedIn_descendants _ _ Hd) as Hin.
  match goal with
  | |- before ?l _ _ =>
      replace l with
        (l1 ++ [o] ++ [] ++ flat_map (flat_map preorder) (getRegions o) ++ l2)
        by (normalize_app; reflexivity)
  end.
  apply before_in_parts; [apply list_elem_of_singleton; reflexivity | exact Hin].
Qed.

(** Within a region, an operation and all it contains come before the
    operations to its right. *)
Lemma preorder_left_to_right o region a b x root :
  inTree o root -> region ∈ getRegions o -> before region a b ->
  inTree x a -> before (preorder root) x b.
Proof.
  intros Ho Hregion (r1 & r2 & r3 & ->) Hx.
  destruct (preorder_subtree _ _ Ho) as (l1 & l2 & ->).
  apply list_elem_of_split in Hregion as (rs1 & rs2 & Hrs).
  rewrite (preorder_unfold o), Hrs.
  rewrite flat_map_app. simpl.
  rewrite flat_map_app. simpl. rewrite flat_map_app. simpl.
  apply preorder_elem in Hx.
  assert (Hb : b ∈ preorder b) by (apply preorder_elem; left; reflexivity).
  match goal with
  | |- before ?l _ _ =>
      replace l with
        ((l1 ++ o :: flat_map (flat_map preorder) rs1 ++ flat_map preorder r1)
           ++ preorder a ++ flat_map preorder r2 ++ preorder b
           ++ (flat_map preorder r3 ++ flat_map (flat_map preorder) rs2 ++ l2))
        by (normalize_app; reflexivity)
  end.
  apply before_in_parts; assumption.
Qed.

(** ** Facts about the traversal *)

Section WalkFacts.
Context {S : Type}.
Implicit Types (callback : Operation -> S -> WalkResult * S) (s : S).

Lemma walk_unfold callback op s :
  walk callback op s =
  match callback op s with
  | (Interrupt, s') => (Interrupt, s')
  | (_, s') => walkRegions callback (getRegions op) s'
  end.
Proof. destruct op; reflexivity. Qed.

Lemma walkEach_result {A : Type} (f : A -> S -> WalkResult * S) l s :
  (walkEach f l s).1 = Interrupt \/ (walkEach f l s).1 = Advance.
Proof.
  revert s. induction l as [|x l IH]; intros s; simpl; [right; reflexivity |].
  destruct (f x s) as [[] s']; simpl; auto.
Qed.

Lemma walkEach_app {A : Type} (f : A -> S -> WalkResult * S) l1 l2 s :
  walkEach f (l1 ++ l2) s =
  match walkEach f l1 s with
  | (Interrupt, s') => (Interrupt, s')
  | (_, s') => walkEach f l2 s'
  end.
Proof.
  revert s. induction l1 as [|x l1 IH]; intros s; simpl; [reflexivity |].
  destruct (f x s) as [[] s']; simpl; auto.
Qed.

Lemma walkEach_flat_map {A B : Type} (f : A -> S -> WalkResult * S)
    (g : B -> S -> WalkResult * S) (h : A -> list B) l :
  Forall (fun x => forall s, f x s = walkEach g (h x) s) l ->
  forall s, walkEach f l s = walkEach g (flat_map h l) s.
Proof.
  induction 1 as [|x l Hx _ IH]; intros s; simpl; [reflexivity |].
  rewrite walkEach_app, Hx.
  destruct (walkEach_result g (h x) s) as [Hr | Hr];
    destruct (walkEach g (h x) s) as [[] s']; simpl in Hr; try discriminate;
    auto.
Qed.

(** The recursive traversal runs the callback along the pre-order
    listing of the tree. *)
Lemma walk_preorder callback op :
  forall s, walk callback op s = walkEach callback (preorder op) s.
Proof.
  induction op as [id name results regions IH] using Operation_ind.
  intros s. rewrite walk_unfold, preorder_unfold. simpl.
  destruct (callback _ s) as [[] s']; try reflexivity.
  - unfold walkRegions, walkRegion. apply walkEach_flat_map.
    eapply Forall_impl; [exact IH |]. intros region Hregion.
    apply walkEach_flat_map. exact Hregion.
  - unfold walkRegions, walkRegion. apply walkEach_flat_map.
    eapply Forall_impl; [exact IH |]. intros region Hregion.
    apply walkEach_flat_map. exact Hregion.
Qed.

Lemma walkEach_interrupt callback l1 x l2 s s1 s' :
  walkEach callback l1 s = (Advance, s1) -> callback x s1 = (Interrupt, s') ->
  walkEach callback (l1 ++ x :: l2) s = (Interrupt, s').
Proof.
  intros Hl1 Hx. rewrite walkEach_app, Hl1. simpl. rewrite Hx. reflexivity.
Qed.

End WalkFacts.

Section VisitedFacts.
Context {S : Type}.
Implicit Types (callback : Operation -> S -> WalkResult * S) (s : S).

(** What the log of a logged run contains. *)
Lemma walkEach_logged callback l s log r s' log' :
  walkEach (logged callback) l (s, log) = (r, (s', log')) ->
  walkEach callback l s = (r, s') /\
  ((r = Advance /\ log' = log ++ l) \/
   (r = Interrupt /\
    exists l1 x l2 s1,
      l = l1 ++ x :: l2 /\ log' = log ++ l1 ++ [x] /\
      walkEach callback l1 s = (Advance, s1) /\
      callback x s1 = (Interrupt, s'))).
Proof.
  revert s log. induction l as [|x l IH]; intros s log; simpl.
  - intros [= <- <- <-]. split; [reflexivity | left].
    rewrite app_nil_r. auto.
  - unfold logged at 1. simpl.
    destruct (callback x s) as [[] s1] eqn:Hx; simpl.
    + intros [= <- <- <-]. split; [reflexivity | right].
      split; [reflexivity |]. exists [], x, l, s. simpl. auto.
    + intros Hrun. destruct (IH _ _ Hrun) as [Hplain Hlog].
      split; [exact Hplain |].
      destruct Hlog as [[-> ->] | [-> (l1 & y & l2 & s2 & -> & -> & Hl1 & Hy)]].
      * left. rewrite <- app_assoc. auto.
      * right. split; [reflexivity |].
        exists (x :: l1), y, l2, s2. simpl. rewrite Hx, <- !app_assoc. auto.
    + intros Hrun. destruct (IH _ _ Hrun) as [Hplain Hlog].
      split; [exact Hplain |].
      destruct Hlog as [[-> ->] | [-> (l1 & y & l2 & s2 & -> & -> & Hl1 & Hy)]].
      * left. rewrite <- app_assoc. auto.
      * right. split; [reflexivity |].
        exists (x :: l1), y, l2, s2. simpl. rewrite Hx, <- !app_assoc. auto.
Qed.

(** The visited operations of a walk, read off the plain run. *)
Lemma visited_spec callback root s :
  let '(r, s') := walk callback root s in
  (r = Advance /\ visited callback root s = preorder root) \/
  (r = Interrupt /\
   exists l1 x l2 s1,
     preorder root = l1 ++ x :: l2 /\ visited callback root s = l1 ++ [x] /\
     walkEach callback l1 s = (Advance, s1) /\
     callback x s1 = (Interrupt, s')).
Proof.
  unfold visited. rewrite !walk_preorder.
  destruct (walkEach (logged callback) (preorder root) (s, []))
    as [r [s' log']] eqn:Hrun.
  apply walkEach_logged in Hrun as [-> Hlog]. simpl. exact Hlog.
Qed.

Lemma visited_prefix callback root s :
  visited callback root s `prefix_of` preorder root.
Proof.
  pose proof (visited_spec callback root s) as Hspec.
  destruct (walk callback root s) as [r s'].
  destruct Hspec as [[_ ->] | [_ (l1 & x & l2 & s1 & -> & -> & _)]].
  - reflexivity.
  - exists l2. rewrite <- app_assoc. reflexivity.
Qed.
End VisitedFacts.

(** ** Facts about the attribute store *)

Lemma getAttr_setAttr ir op name value :
  getAttr (setAttr ir op name value) op name = Some value.
Proof.
  unfold getAttr, getAttrDictionary, setAttr. simpl.
  rewrite lookup_insert_eq. simpl. apply lookup_insert_eq.
Qed.

Lemma hasAttr_setAttr ir op name value :
  hasAttr (setAttr ir op name value) op name = true.
Proof. unfold hasAttr. rewrite getAttr_setAttr. reflexivity. Qed.

Lemma hasAttr_false ir op name :
  hasAttr ir op name = false <-> getAttr ir op name = None.
Proof. unfold hasAttr. destruct (getAttr ir op name); split; congruence. Qed.

(** ** Facts about the escape annotator *)

Section AnnotatorFacts.
Context `{!ExternalInterfaces}.
Implicit Types (state : AnalysisState) (bufferizableOp : BufferizableOpInterface).

Lemma escapeLoopBody_spec state bufferizableOp escapeAttrValue found r :
  escapeLoopBody state bufferizableOp (escapeAttrValue, found) r =
  (escapeAttrValue ++ [expectedEscape state bufferizableOp r],
   found || qualifies bufferizableOp r).
Proof.
  unfold escapeLoopBody, expectedEscape, qualifies.
  destruct (isaTensorType (getType r)), (bufferizesToAllocation bufferizableOp r);
    simpl; rewrite ?orb_true_r, ?orb_false_r; reflexivity.
Qed.

Lemma escapeLoop_foldl state bufferizableOp results escapeAttrValue found :
  foldl (escapeLoopBody state bufferizableOp) (escapeAttrValue, found) results =
  (escapeAttrValue ++ map (expectedEscape state bufferizableOp) results,
   found || existsb (qualifies bufferizableOp) results).
Proof.
  revert escapeAttrValue found.
  induction results as [|r results IH]; intros escapeAttrValue found;
    cbn [foldl map existsb].
  - rewrite app_nil_r, orb_false_r. reflexivity.
  - rewrite escapeLoopBody_spec, IH, <- app_assoc, orb_assoc. reflexivity.
Qed.

(** The loop computes one entry per result, in result order, and finds
    a tensor result exactly when some result qualifies. *)
Lemma escapeLoop_spec state bufferizableOp op :
  escapeLoop state bufferizableOp op =
  (map (expectedEscape state bufferizableOp) (getOpResults op),
   existsb (qualifies bufferizableOp) (getOpResults op)).
Proof. unfold escapeLoop. rewrite escapeLoop_foldl. reflexivity. Qed.

Lemma annotateEscape_present state bufferizableOp op ir :
  hasAttr ir op kEscapeAttrName = true ->
  annotateEscape state bufferizableOp op ir = ir.
Proof. intros Hhas. unfold annotateEscape. rewrite Hhas. reflexivity. Qed.

Lemma annotateEscape_found state bufferizableOp op ir :
  hasAttr ir op kEscapeAttrName = false ->
  existsb (qualifies bufferizableOp) (getOpResults op) = true ->
  annotateEscape state bufferizableOp op ir =
  setAttr ir op kEscapeAttrName
    (BoolArrayAttr (map (expectedEscape state bufferizableOp) (getOpResults op))).
Proof.
  intros Hhas Hfound. unfold annotateEscape.
  rewrite Hhas, escapeLoop_spec, Hfound. reflexivity.
Qed.

Lemma annotateEscape_none state bufferizableOp op ir :
  existsb (qualifies bufferizableOp) (getOpResults op) = false ->
  annotateEscape state bufferizableOp op ir = ir.
Proof.
  intros Hnone. unfold annotateEscape.
  rewrite escapeLoop_spec, Hnone. destruct (hasAttr _ _ _); reflexivity.
Qed.

Lemma qualifying_result_found bufferizableOp (results : list OpResult) :
  existsb (qualifies bufferizableOp) results = true <->
  exists r, r ∈ results /\ qualifies bufferizableOp r = true.
Proof.
  rewrite existsb_exists. split; intros (r & Hin & Hq); exists r;
    (split; [apply list_elem_of_In; exact Hin | exact Hq]).
Qed.

Lemma walkCallback_bufferizable state bufferizableOp op rewriter ir :
  dynCastBufferizableOp (getOptions state) op = Some bufferizableOp ->
  walkCallback state op (rewriter, ir) =
  let '(resolved, s') :=
    resolveConflicts bufferizableOp (setInsertionPoint rewriter op) state
      (annotateEscape state bufferizableOp op ir) in
  (if failed resolved then Interrupt else Advance, s').
Proof.
  intros Hcast. unfold walkCallback. rewrite Hcast.
  destruct (resolveConflicts _ _ _ _) as [[] s']; reflexivity.
Qed.

Lemma walkCallback_interrupt state o s s' :
  walkCallback state o s = (Interrupt, s') <-> resolveFailsAt state o s s'.
Proof.
  destruct s as [rewriter ir]. unfold resolveFailsAt. cbn [fst snd]. split.
  - unfold walkCallback.
    destruct (dynCastBufferizableOp _ _) as [bufferizableOp|]; [|discriminate].
    destruct (resolveConflicts _ _ _ _) as [[] s1] eqn:Hresolve; simpl;
      intros [= <-]. exists bufferizableOp. auto.
  - intros (bufferizableOp & Hcast & Hresolve).
    rewrite (walkCallback_bufferizable _ _ _ _ _ Hcast), Hresolve. reflexivity.
Qed.

Lemma insertTensorCopies_state_walk op state ir :
  insertTensorCopies_state op state ir =
  (failureIf (wasInterrupted (walk (walkCallback state) op (newIRRewriter, ir)).1),
   (walk (walkCallback state) op (newIRRewriter, ir)).2.2).
Proof.
  unfold insertTensorCopies_state.
  destruct (walk _ _ _) as [r [rewriter ir']]. reflexivity.
Qed.
End AnnotatorFacts.

(** * The claims *)

(** ** Escape annotator *)

Section AnnotatorClaims.
Context `{!ExternalInterfaces}.
Implicit Types (state : AnalysisState) (bufferizableOp : BufferizableOpInterface).

(** C1.  When the driver visits a bufferizable operation [op] that has
    no escape attribute, it hands to the conflict resolution a program
    in which [op] carries a boolean array, and for every result of [op]
    that is tensor-typed and bufferizes to an allocation the entry at
    the result's position is [true] if [createDeallocs] is off, whatever
    the analysis says about yielding, and is exactly
    [isTensorYielded result] if [createDeallocs] is on. *)
Theorem escape_entry_of_qualifying_result
    state bufferizableOp op rewriter ir i r :
  dynCastBufferizableOp (getOptions state) op = Some bufferizableOp ->
  hasAttr ir op kEscapeAttrName = false ->
  getOpResults op !! i = Some r ->
  isaTensorType (getType r) = true ->
  bufferizesToAllocation bufferizableOp r = true ->
  exists annotated escapeAttrValue,
    annotated = annotateEscape state bufferizableOp op ir /\
    walkCallback state op (rewriter, ir) =
      (let '(resolved, s') :=
         resolveConflicts bufferizableOp (setInsertionPoint rewriter op)
           state annotated in
       (if failed resolved then Interrupt else Advance, s')) /\
    getAttr annotated op kEscapeAttrName = Some (BoolArrayAttr escapeAttrValue) /\
    (createDeallocs (getOptions state) = false ->
     escapeAttrValue !! i = Some true) /\
    (createDeallocs (getOptions state) = true ->
     escapeAttrValue !! i = Some (isTensorYielded state r)).
Proof.
  intros Hcast Hmissing Hresult Htensor Halloc.
  assert (Hq : qualifies bufferizableOp r = true).
  { unfold qualifies. rewrite Htensor, Halloc. reflexivity. }
  assert (Hfound : existsb (qualifies bufferizableOp) (getOpResults op) = true).
  { apply qualifying_result_found. exists r. split; [|exact Hq].
    eapply list_elem_of_lookup_2. exact Hresult. }
  exists (annotateEscape state bufferizableOp op ir),
    (map (expectedEscape state bufferizableOp) (getOpResults op)).
  split; [reflexivity |].
  split; [apply walkCallback_bufferizable; exact Hcast |].
  rewrite (annotateEscape_found _ _ _ _ Hmissing Hfound), getAttr_setAttr.
  split; [reflexivity |].
  assert (Hentry :
    map (expectedEscape state bufferizableOp) (getOpResults op) !! i =
    Some (negb (createDeallocs (getOptions state)) || isTensorYielded state r)).
  { change (map ?f ?l) with (f <$> l). rewrite list_lookup_fmap, Hresult. simpl.
    unfold expectedEscape. rewrite Hq. reflexivity. }
  split; intros Hdeallocs; rewrite Hentry, Hdeallocs; reflexivity.
Qed.

(** C4.  An operation that already carries an escape attribute is left
    alone: the annotator returns the program unchanged, attribute
    dictionaries included.  Consequently a second run of the annotator,
    on whatever the first run produced, changes nothing and the
    attribute read after the second run is the one read after the
    first. *)
Theorem escape_annotation_idempotent state bufferizableOp op ir :
  (hasAttr ir op kEscapeAttrName = true ->
   annotateEscape state bufferizableOp op ir = ir /\
   getAttrDictionary (annotateEscape state bufferizableOp op ir) op =
     getAttrDictionary ir op) /\
  annotateEscape state bufferizableOp op
    (annotateEscape state bufferizableOp op ir) =
    annotateEscape state bufferizableOp op ir /\
  getAttr (annotateEscape state bufferizableOp op
             (annotateEscape state bufferizableOp op ir)) op kEscapeAttrName =
    getAttr (annotateEscape state bufferizableOp op ir) op kEscapeAttrName.
Proof.
  assert (Htwice :
    annotateEscape state bufferizableOp op
      (annotateEscape state bufferizableOp op ir) =
    annotateEscape state bufferizableOp op ir).
  { destruct (hasAttr ir op kEscapeAttrName) eqn:Hhas.
    - rewrite !(annotateEscape_present _ _ _ _ Hhas). reflexivity.
    - destruct (existsb (qualifies bufferizableOp) (getOpResults op)) eqn:Hfound.
      + rewrite (annotateEscape_found _ _ _ _ Hhas Hfound).
        apply annotateEscape_present, hasAttr_setAttr.
      + rewrite !(annotateEscape_none _ _ _ _ Hfound). reflexivity. }
  split; [| split].
  - intros Hhas. rewrite (annotateEscape_present _ _ _ _ Hhas). auto.
  - exact Htwice.
  - rewrite Htwice. reflexivity.
Qed.

(** C5.  For an operation without an escape attribute, the annotator
    attaches one exactly when some result is tensor-typed and
    allocating.  An attached attribute is a boolean array with one entry
    per result, in result order, whose entry is [false] at every result
    that is not a tensor or does not allocate.  When no result
    qualifies, nothing is attached and the program is unchanged. *)
Theorem escape_attribute_presence_and_shape state bufferizableOp op ir :
  hasAttr ir op kEscapeAttrName = false ->
  (is_Some (getAttr (annotateEscape state bufferizableOp op ir) op kEscapeAttrName) <->
   exists r, r ∈ getOpResults op /\
             isaTensorType (getType r) = true /\
             bufferizesToAllocation bufferizableOp r = true) /\
  (forall attr,
      getAttr (annotateEscape state bufferizableOp op ir) op kEscapeAttrName = Some attr ->
      exists escapeAttrValue,
        attr = BoolArrayAttr escapeAttrValue /\
        length escapeAttrValue = length (getOpResults op) /\
        forall i r, getOpResults op !! i = Some r ->
                    isaTensorType (getType r) && bufferizesToAllocation bufferizableOp r = false ->
                    escapeAttrValue !! i = Some false) /\
  ((forall r, r ∈ getOpResults op ->
              isaTensorType (getType r) && bufferizesToAllocation bufferizableOp r = false) ->
   annotateEscape state bufferizableOp op ir = ir /\
   getAttr (annotateEscape state bufferizableOp op ir) op kEscapeAttrName = None).
Proof.
  intros Hmissing.
  destruct (existsb (qualifies bufferizableOp) (getOpResults op)) eqn:Hfound.
  - rewrite (annotateEscape_found _ _ _ _ Hmissing Hfound), getAttr_setAttr.
    split; [| split].
    + split; [intros _ | intros _; eexists; reflexivity].
      apply qualifying_result_found in Hfound as (r & Hin & Hq).
      exists r. unfold qualifies in Hq. apply andb_true_iff in Hq. tauto.
    + intros attr [= <-]. eexists. split; [reflexivity |].
      split; [apply length_map |].
      intros i r Hresult Hnot.
      change (map ?f ?l) with (f <$> l). rewrite list_lookup_fmap, Hresult. simpl.
      unfold expectedEscape, qualifies. rewrite Hnot. reflexivity.
    + intros Hnone. exfalso.
      apply qualifying_result_found in Hfound as (r & Hin & Hq).
      unfold qualifies in Hq. rewrite (Hnone _ Hin) in Hq. discriminate.
  - rewrite (annotateEscape_none _ _ _ _ Hfound).
    apply hasAttr_false in Hmissing. rewrite Hmissing.
    split; [| split].
    + split; [intros [attr [=]] |].
      intros (r & Hin & Htensor & Halloc). exfalso.
      assert (Hsome : existsb (qualifies bufferizableOp) (getOpResults op) = true).
      { apply qualifying_result_found. exists r. split; [exact Hin |].
        unfold qualifies. rewrite Htensor, Halloc. reflexivity. }
      congruence.
    + intros attr [=].
    + auto.
Qed.
End AnnotatorClaims.

(** ** Conflict resolution driver *)

Section DriverClaims.
Context `{!ExternalInterfaces}.
Implicit Types (state : AnalysisState) (root : Operation) (ir : IR).

Lemma walkEach_logged_advance {S : Type}
    (callback : Operation -> S -> WalkResult * S) l s s1 log :
  walkEach callback l s = (Advance, s1) ->
  walkEach (logged callback) l (s, log) = (Advance, (s1, log ++ l)).
Proof.
  intros Hplain.
  destruct (walkEach (logged callback) l (s, log)) as [r [s' log']] eqn:Hrun.
  apply walkEach_logged in Hrun as [Hsame Hlog].
  rewrite Hplain in Hsame. injection Hsame as <- <-.
  destruct Hlog as [[_ ->] | [[=] _]]. reflexivity.
Qed.

Lemma visited_on_success state root ir :
  (insertTensorCopies_state root state ir).1 = success ->
  visitedOps state root ir = preorder root.
Proof.
  rewrite insertTensorCopies_state_walk. unfold visitedOps. simpl.
  pose proof (visited_spec (walkCallback state) root (newIRRewriter, ir)) as Hspec.
  destruct (walk (walkCallback state) root (newIRRewriter, ir)) as [r s'].
  destruct Hspec as [[_ Hall] | [-> _]]; [intros _; exact Hall | discriminate].
Qed.

(** C2.  The driver runs its callback along the pre-order listing of the
    tree: the visited operations are an initial part of that listing,
    all of it when the driver succeeds.  With operations being distinct
    objects, every operation is visited once, a visited operation was
    preceded by each operation in whose regions it is nested
    (outer-to-inner), and by every operation to its left in its own
    region together with all that such an operation contains
    (left-to-right). *)
Theorem driver_visits_in_preorder state root ir :
  distinctOps root ->
  visitedOps state root ir `prefix_of` preorder root /\
  ((insertTensorCopies_state root state ir).1 = success ->
   forall o, inTree o root -> o ∈ visitedOps state root ir) /\
  NoDup (visitedOps state root ir) /\
  (forall o d,
      inTree o root -> nestedIn d o -> d ∈ visitedOps state root ir ->
      before (visitedOps state root ir) o d) /\
  (forall o region a b x,
      inTree o root -> region ∈ getRegions o -> before region a b ->
      inTree x a -> b ∈ visitedOps state root ir ->
      before (visitedOps state root ir) x b).
Proof.
  intros Hdistinct. apply distinctOps_NoDup in Hdistinct.
  pose proof (visited_prefix (walkCallback state) root (newIRRewriter, ir))
    as Hprefix.
  fold (visitedOps state root ir) in Hprefix.
  split; [exact Hprefix |]. split; [| split; [| split]].
  - intros Hok o Ho. rewrite (visited_on_success _ _ _ Hok).
    apply preorder_elem. exact Ho.
  - destruct Hprefix as [rest Hrest]. rewrite Hrest in Hdistinct.
    apply NoDup_app in Hdistinct. tauto.
  - intros o d Ho Hd Hvisited.
    eapply before_prefix; eauto using preorder_parent_first.
  - intros o region a b x Ho Hregion Hab Hx Hvisited.
    eapply before_prefix; eauto using preorder_left_to_right.
Qed.

(** C3.  The state-based entry point fails exactly when the conflict
    resolution of some operation fails at the moment the driver reaches
    it, all operations before it in traversal order having been handled
    without interruption.  In that case the operations visited are
    those up to and including the failing one, so nothing that comes
    later in traversal order is ever handed to the callback, and the
    program returned is the one the failing resolution left behind: the
    effects of the earlier operations stay.  On success every operation
    of the tree has been visited. *)
Theorem insertTensorCopies_fail_fast state root ir :
  ((insertTensorCopies_state root state ir).1 = failure <->
   exists l o rest s1 s',
     preorder root = l ++ o :: rest /\
     walkEach (walkCallback state) l (newIRRewriter, ir) = (Advance, s1) /\
     resolveFailsAt state o s1 s') /\
  (forall l o rest s1 s',
      preorder root = l ++ o :: rest ->
      walkEach (walkCallback state) l (newIRRewriter, ir) = (Advance, s1) ->
      resolveFailsAt state o s1 s' ->
      visitedOps state root ir = l ++ [o] /\
      insertTensorCopies_state root state ir = (failure, s'.2)) /\
  ((insertTensorCopies_state root state ir).1 = success ->
   visitedOps state root ir = preorder root).
Proof.
  split; [| split].
  - rewrite insertTensorCopies_state_walk. simpl. split.
    + pose proof (visited_spec (walkCallback state) root (newIRRewriter, ir))
        as Hspec.
      destruct (walk (walkCallback state) root (newIRRewriter, ir)) as [r s'].
      destruct Hspec as [[-> _] | [-> (l & o & rest & s1 & Hsplit & _ & Hl & Ho)]];
        [discriminate |].
      intros _. exists l, o, rest, s1, s'.
      split; [exact Hsplit |]. split; [exact Hl |].
      apply walkCallback_interrupt. exact Ho.
    + intros (l & o & rest & s1 & s' & Hsplit & Hl & Ho).
      apply walkCallback_interrupt in Ho.
      rewrite walk_preorder, Hsplit, (walkEach_interrupt _ _ _ _ _ _ _ Hl Ho).
      reflexivity.
  - intros l o rest s1 s' Hsplit Hl Ho.
    apply walkCallback_interrupt in Ho. split.
    + unfold visitedOps, visited.
      rewrite walk_preorder, Hsplit, walkEach_app.
      rewrite (walkEach_logged_advance _ _ _ _ _ Hl). simpl.
      unfold logged at 1. simpl. rewrite Ho. reflexivity.
    + rewrite insertTensorCopies_state_walk, walk_preorder, Hsplit.
      rewrite (walkEach_interrupt _ _ _ _ _ _ _ Hl Ho). reflexivity.
  - apply visited_on_success.
Qed.

(** C6.  On an operation without the bufferizable capability the
    callback changes nothing and reports a skip: the operation is
    neither annotated nor asked to resolve conflicts.  The walk of such
    an operation is the walk of its regions, so the skip interrupts
    nothing and whatever is nested in the operation is still walked;
    when the driver succeeds, every operation nested in it has been
    visited. *)
Theorem non_bufferizable_op_is_skipped state o :
  dynCastBufferizableOp (getOptions state) o = None ->
  (forall s, walkCallback state o s = (Skip, s)) /\
  (forall s, walk (walkCallback state) o s =
             walkRegions (walkCallback state) (getRegions o) s) /\
  (forall s, visited (walkCallback state) o s =
             (walkRegions (logged (walkCallback state)) (getRegions o) (s, [o])).2.2) /\
  (forall root ir,
      inTree o root ->
      (insertTensorCopies_state root state ir).1 = success ->
      forall d, nestedIn d o -> d ∈ visitedOps state root ir).
Proof.
  intros Hcast.
  assert (Hskip : forall s, walkCallback state o s = (Skip, s)).
  { intros [rewriter ir]. unfold walkCallback. rewrite Hcast. reflexivity. }
  split; [exact Hskip |]. split; [| split].
  - intros s. rewrite walk_unfold, Hskip. reflexivity.
  - intros s. unfold visited. rewrite walk_unfold.
    unfold logged at 1. simpl. rewrite Hskip. reflexivity.
  - intros root ir Ho Hok d Hd. rewrite (visited_on_success _ _ _ Hok).
    apply preorder_elem. eapply inTree_trans; [right; exact Hd | exact Ho].
Qed.
End DriverClaims.

(** ** Options-based entry point *)

Section EntryPointClaims.
Context `{!ExternalInterfaces}.

Lemma insertTensorCopies_options_analysed op options ir :
  insertTensorCopies_options op options ir =
  match upstreamAnalysis op options ir with
  | None => None
  | Some (analysis, (state, ir')) =>
      if failed analysis then Some (failure, ir')
      else if testAnalysisOnly options then Some (success, ir')
      else Some (insertTensorCopies_state op state ir')
  end.
Proof.
  unfold insertTensorCopies_options, upstreamAnalysis, castModuleOp.
  destruct (bufferizeFunctionBoundaries options); simpl.
  - destruct (isaModuleOp op); simpl; [|reflexivity].
    destruct (analyzeModuleOp _ _ _) as [analysis [state ir']]. reflexivity.
  - destruct (analyzeOp _ _ _) as [analysis [state ir']]. reflexivity.
Qed.

(** C7.  With [testAnalysisOnly] set, once the analysis selected by the
    options has succeeded the entry point reports success and returns
    the program exactly as the analysis left it: neither the annotator
    nor the conflict resolution has touched it, so no escape attribute
    was attached and no copy was inserted. *)
Theorem analysis_only_returns_after_analysis op options ir state' ir' :
  testAnalysisOnly options = true ->
  upstreamAnalysis op options ir = Some (success, (state', ir')) ->
  insertTensorCopies_options op options ir = Some (success, ir') /\
  (forall result, insertTensorCopies_options op options ir = Some result ->
                  opAttrs result.2 = opAttrs ir' /\
                  insertedOps result.2 = insertedOps ir').
Proof.
  intros Honly Hanalysis.
  rewrite insertTensorCopies_options_analysed, Hanalysis. simpl.
  rewrite Honly. split; [reflexivity |].
  intros result [= <-]. split; reflexivity.
Qed.

(** C8.  When the analysis selected by the options fails (the module
    analysis, run on the root cast to a module, if
    [bufferizeFunctionBoundaries] is set; the single-scope analysis
    otherwise), the entry point returns failure at once, with the
    program as the analysis left it: the resolution phase has not
    run. *)
Theorem analysis_failure_is_propagated op options ir state' ir' :
  (if bufferizeFunctionBoundaries options
   then isaModuleOp op = true /\
        analyzeModuleOp op (newOneShotAnalysisState op options) ir
          = (failure, (state', ir'))
   else analyzeOp op (newOneShotAnalysisState op options) ir
          = (failure, (state', ir'))) ->
  insertTensorCopies_options op options ir = Some (failure, ir').
Proof.
  intros Hanalysis.
  rewrite insertTensorCopies_options_analysed. unfold upstreamAnalysis.
  destruct (bufferizeFunctionBoundaries options).
  - destruct Hanalysis as [-> ->]. reflexivity.
  - rewrite Hanalysis. reflexivity.
Qed.

(** C9.  After a successful analysis and with [testAnalysisOnly] off,
    the options-based entry point is the state-based entry point run on
    the same root with the analysis state and the program that the
    analysis produced: same result, same final program. *)
Theorem options_entry_defers_to_state_entry op options ir state' ir' :
  testAnalysisOnly options = false ->
  upstreamAnalysis op options ir = Some (success, (state', ir')) ->
  insertTensorCopies_options op options ir =
  Some (insertTensorCopies_state op state' ir').
Proof.
  intros Honly Hanalysis.
  rewrite insertTensorCopies_options_analysed, Hanalysis. simpl.
  rewrite Honly. reflexivity.
Qed.

(** C10.  The options-based entry point has a defined outcome exactly
    when the root is a module whenever [bufferizeFunctionBoundaries] is
    set.  Under that precondition the checked cast succeeds; for a root
    that is not a module, with the flag set, the cast has no defined
    result and neither has the call. *)
Theorem module_root_precondition op options ir :
  (is_Some (insertTensorCopies_options op options ir) <->
   (bufferizeFunctionBoundaries options = true -> isaModuleOp op = true)) /\
  (isaModuleOp op = true -> castModuleOp op = Some op) /\
  (bufferizeFunctionBoundaries options = true -> isaModuleOp op = false ->
   castModuleOp op = None /\ insertTensorCopies_options op options ir = None).
Proof.
  rewrite insertTensorCopies_options_analysed.
  unfold upstreamAnalysis, castModuleOp.
  destruct (bufferizeFunctionBoundaries options), (isaModuleOp op); simpl.
  - destruct (analyzeModuleOp _ _ _) as [[] [state ir']]; simpl;
      destruct (testAnalysisOnly options);
      (split; [split; [auto | intros _; eexists; reflexivity] | split; [auto | discriminate]]).
  - split; [split; [intros [result [=]] | intros Habsurd; discriminate (Habsurd eq_refl)] |].
    split; [discriminate | auto].
  - destruct (analyzeOp _ _ _) as [[] [state ir']]; simpl;
      destruct (testAnalysisOnly options);
      (split; [split; [auto | intros _; eexists; reflexivity] | split; [auto | discriminate]]).
  - destruct (analyzeOp _ _ _) as [[] [state ir']]; simpl;
      destruct (testAnalysisOnly options);
      (split; [split; [discriminate | intros _; eexists; reflexivity] | split; [discriminate | discriminate]]).
Qed.
End EntryPointClaims.

(** * The claims on the sample program *)

Section SampleRuns.
Import Sample.
#[local] Existing Instance sampleInterfaces.

(** C1 on the second result of the two-result operation: a tensor that
    is allocated and, by the sample analysis, yielded. *)
Lemma escape_entry_of_qualifying_result_witness :
  getOpResults sizeAndAllocOp !! 1 = Some (mkOpResult 4 1 UnrankedTensorType) /\
  exists escapeAttrValue,
    getAttr (annotateEscape (analysed withDeallocs) allocInterface
               sizeAndAllocOp emptyIR)
      sizeAndAllocOp kEscapeAttrName = Some (BoolArrayAttr escapeAttrValue) /\
    escapeAttrValue !! 1 = Some true.
Proof.
  split; [reflexivity |].
  destruct (escape_entry_of_qualifying_result (analysed withDeallocs)
              allocInterface sizeAndAllocOp newIRRewriter emptyIR 1
              (mkOpResult 4 1 UnrankedTensorType))
    as (annotated & escapeAttrValue & -> & _ & Hattr & _ & Hon);
    [reflexivity | reflexivity | reflexivity | reflexivity | reflexivity |].
  exists escapeAttrValue. split; [exact Hattr | apply Hon; reflexivity].
Defined.

(** C2 on the sample module: the function precedes the fill nested in
    it, and the allocation precedes the fill to its right. *)
Lemma driver_visits_in_preorder_witness :
  distinctOps moduleOp /\
  before (visitedOps (analysed withDeallocs) moduleOp emptyIR) funcOp fillOp /\
  before (visitedOps (analysed withDeallocs) moduleOp emptyIR) allocOp fillOp.
Proof.
  assert (Hdistinct : distinctOps moduleOp).
  { unfold distinctOps. apply (bool_decide_unpack _). vm_compute. exact I. }
  assert (Hfunc : inTree funcOp moduleOp).
  { right. eapply nested_direct; [left | left]. }
  assert (Hregion : [allocOp; fillOp; sizeAndAllocOp; returnOp] ∈ getRegions funcOp)
    by left.
  assert (Hfill : fillOp ∈ visitedOps (analysed withDeallocs) moduleOp emptyIR).
  { replace (visitedOps (analysed withDeallocs) moduleOp emptyIR)
      with [moduleOp; funcOp; allocOp; fillOp; sizeAndAllocOp; returnOp]
      by reflexivity.
    do 3 right. left. }
  destruct (driver_visits_in_preorder (analysed withDeallocs) moduleOp emptyIR
              Hdistinct) as (_ & _ & _ & Hparent & Hleft).
  split; [exact Hdistinct |]. split.
  - apply Hparent; [exact Hfunc | | exact Hfill].
    eapply nested_direct; [exact Hregion | right; left].
  - apply (Hleft funcOp _ allocOp fillOp allocOp Hfunc Hregion);
      [| left; reflexivity | exact Hfill].
    exists [], [], [sizeAndAllocOp; returnOp]. reflexivity.
Defined.

(** C3 on the broken module: the resolution of the unresolvable
    operation fails, the fill and the return after it are never
    visited, and the escape attribute already attached to the
    allocation stays. *)
Lemma insertTensorCopies_fail_fast_witness :
  preorder brokenModuleOp =
    [brokenModuleOp; brokenFuncOp; allocOp] ++ unresolvableOp :: [fillOp; returnOp] /\
  visitedOps (analysed withDeallocs) brokenModuleOp emptyIR =
    [brokenModuleOp; brokenFuncOp; allocOp] ++ [unresolvableOp] /\
  (insertTensorCopies_state brokenModuleOp (analysed withDeallocs) emptyIR).1 = failure /\
  getAttr (insertTensorCopies_state brokenModuleOp (analysed withDeallocs) emptyIR).2
    allocOp kEscapeAttrName = Some (BoolArrayAttr [false]).
Proof.
  split; [reflexivity |].
  destruct (insertTensorCopies_fail_fast (analysed withDeallocs)
              brokenModuleOp emptyIR) as (_ & Hfail & _).
  destruct (Hfail [brokenModuleOp; brokenFuncOp; allocOp] unresolvableOp
              [fillOp; returnOp]
              (walkEach (walkCallback (analysed withDeallocs))
                 [brokenModuleOp; brokenFuncOp; allocOp]
                 (newIRRewriter, emptyIR)).2
              (walkCallback (analysed withDeallocs) unresolvableOp
                 (walkEach (walkCallback (analysed withDeallocs))
                    [brokenModuleOp; brokenFuncOp; allocOp]
                    (newIRRewriter, emptyIR)).2).2)
    as [Hvisited Hresult].
  - reflexivity.
  - reflexivity.
  - exists unresolvableInterface. split; reflexivity.
  - split; [exact Hvisited |]. rewrite Hresult. split; reflexivity.
Defined.

(** C4 on the allocation that already carries a hand-written
    attribute. *)
Lemma escape_annotation_idempotent_witness :
  hasAttr annotatedIR allocOp kEscapeAttrName = true /\
  annotateEscape (analysed withDeallocs) allocInterface allocOp annotatedIR
    = annotatedIR /\
  getAttr (annotateEscape (analysed withDeallocs) allocInterface allocOp annotatedIR)
    allocOp kEscapeAttrName = Some (BoolArrayAttr [true]).
Proof.
  assert (Hpresent : hasAttr annotatedIR allocOp kEscapeAttrName = true)
    by reflexivity.
  destruct (escape_annotation_idempotent (analysed withDeallocs)
              allocInterface allocOp annotatedIR) as (Hkept & _ & _).
  destruct (Hkept Hpresent) as [Hsame _].
  split; [exact Hpresent |]. split; [exact Hsame |].
  rewrite Hsame. reflexivity.
Defined.

(** C5 on the fill, none of whose results allocates: nothing is
    attached. *)
Lemma escape_attribute_presence_and_shape_witness :
  hasAttr emptyIR fillOp kEscapeAttrName = false /\
  annotateEscape (analysed withDeallocs) (fillInterface fillOp) fillOp emptyIR
    = emptyIR /\
  getAttr (annotateEscape (analysed withDeallocs) (fillInterface fillOp) fillOp emptyIR)
    fillOp kEscapeAttrName = None.
Proof.
  assert (Hmissing : hasAttr emptyIR fillOp kEscapeAttrName = false)
    by reflexivity.
  destruct (escape_attribute_presence_and_shape (analysed withDeallocs)
              (fillInterface fillOp) fillOp emptyIR Hmissing) as (_ & _ & Hnone).
  split; [exact Hmissing |]. apply Hnone. intros r Hr.
  apply list_elem_of_singleton in Hr as ->. reflexivity.
Defined.

(** C6 on the function, which is not bufferizable in the sample: it is
    skipped and the fill nested in it is visited all the same. *)
Lemma non_bufferizable_op_is_skipped_witness :
  dynCastBufferizableOp (getOptions (analysed withDeallocs)) funcOp = None /\
  walkCallback (analysed withDeallocs) funcOp (newIRRewriter, emptyIR)
    = (Skip, (newIRRewriter, emptyIR)) /\
  fillOp ∈ visitedOps (analysed withDeallocs) moduleOp emptyIR.
Proof.
  assert (Hcast :
    dynCastBufferizableOp (getOptions (analysed withDeallocs)) funcOp = None)
    by reflexivity.
  destruct (non_bufferizable_op_is_skipped (analysed withDeallocs) funcOp Hcast)
    as (Hskip & _ & _ & Hnested).
  split; [exact Hcast |]. split; [apply Hskip |].
  apply Hnested.
  - right. eapply nested_direct; [left | left].
  - reflexivity.
  - eapply nested_direct; [left | right; left].
Defined.

(** C7 on the sample module with the analysis-only options. *)
Lemma analysis_only_returns_after_analysis_witness :
  testAnalysisOnly analysisOnly = true /\
  insertTensorCopies_options moduleOp analysisOnly emptyIR = Some (success, emptyIR).
Proof.
  split; [reflexivity |].
  eapply (analysis_only_returns_after_analysis moduleOp analysisOnly emptyIR
            (analysed analysisOnly) emptyIR); reflexivity.
Defined.

(** C8 on an operation the sample analysis rejects. *)
Lemma analysis_failure_is_propagated_witness :
  analyzeOp unsupportedOp (newOneShotAnalysisState unsupportedOp withoutDeallocs) emptyIR
    = (failure, (sampleNewState unsupportedOp withoutDeallocs, emptyIR)) /\
  insertTensorCopies_options unsupportedOp withoutDeallocs emptyIR
    = Some (failure, emptyIR).
Proof.
  split; [reflexivity |].
  apply (analysis_failure_is_propagated unsupportedOp withoutDeallocs emptyIR
           (sampleNewState unsupportedOp withoutDeallocs) emptyIR).
  reflexivity.
Defined.

(** C9 on the sample module. *)
Lemma options_entry_defers_to_state_entry_witness :
  testAnalysisOnly withDeallocs = false /\
  insertTensorCopies_options moduleOp withDeallocs emptyIR =
    Some (insertTensorCopies_state moduleOp (analysed withDeallocs) emptyIR).
Proof.
  split; [reflexivity |].
  apply (options_entry_defers_to_state_entry moduleOp withDeallocs emptyIR
           (analysed withDeallocs) emptyIR); reflexivity.
Defined.

(** C10 on the function as root, with function boundaries bufferized:
    the function is no module, the call has no defined outcome. *)
Lemma module_root_precondition_witness :
  bufferizeFunctionBoundaries withDeallocs = true /\
  isaModuleOp funcOp = false /\
  insertTensorCopies_options funcOp withDeallocs emptyIR = None /\
  is_Some (insertTensorCopies_options moduleOp withDeallocs emptyIR).
Proof.
  split; [reflexivity |]. split; [reflexivity |]. split.
  - destruct (module_root_precondition funcOp withDeallocs emptyIR)
      as (_ & _ & Hnone).
    apply Hnone; reflexivity.
  - destruct (module_root_precondition moduleOp withDeallocs emptyIR)
      as (Hdefined & _ & _).
    apply Hdefined. intros _. reflexivity.
Defined.
End SampleRuns.

(** * Further properties of the code *)

(** ** The annotator only adds, and only at one place *)

Lemma getAttrDictionary_setAttr ir op name value op' :
  getAttrDictionary (setAttr ir op name value) op' =
  if decide (opId op = opId op')
  then <[name := value]> (getAttrDictionary ir op)
  else getAttrDictionary ir op'.
Proof.
  unfold getAttrDictionary, setAttr. simpl.
  rewrite lookup_insert. destruct (decide (opId op = opId op')); reflexivity.
Qed.

Lemma getAttrDictionary_same_id ir op op' :
  opId op = opId op' -> getAttrDictionary ir op = getAttrDictionary ir op'.
Proof. unfold getAttrDictionary. intros ->. reflexivity. Qed.

Section AnnotatorFrame.
Context `{!ExternalInterfaces}.
Implicit Types (state : AnalysisState) (bufferizableOp : BufferizableOpInterface).

Lemma annotateEscape_cases state bufferizableOp op ir :
  annotateEscape state bufferizableOp op ir = ir \/
  (hasAttr ir op kEscapeAttrName = false /\
   existsb (qualifies bufferizableOp) (getOpResults op) = true /\
   annotateEscape state bufferizableOp op ir =
     setAttr ir op kEscapeAttrName
       (BoolArrayAttr (map (expectedEscape state bufferizableOp) (getOpResults op)))).
Proof.
  destruct (hasAttr ir op kEscapeAttrName) eqn:Hhas.
  - left. apply annotateEscape_present. exact Hhas.
  - destruct (existsb (qualifies bufferizableOp) (getOpResults op)) eqn:Hfound.
    + right. split; [reflexivity |]. split; [reflexivity |].
      apply annotateEscape_found; assumption.
    + left. apply annotateEscape_none. exact Hfound.
Qed.

Lemma annotateEscape_insertedOps state bufferizableOp op ir :
  insertedOps (annotateEscape state bufferizableOp op ir) = insertedOps ir.
Proof.
  destruct (annotateEscape_cases state bufferizableOp op ir)
    as [-> | (_ & _ & ->)]; reflexivity.
Qed.

Lemma annotateEscape_other_dictionary state bufferizableOp op ir op' :
  opId op <> opId op' ->
  getAttrDictionary (annotateEscape state bufferizableOp op ir) op' =
  getAttrDictionary ir op'.
Proof.
  intros Hother.
  destruct (annotateEscape_cases state bufferizableOp op ir)
    as [-> | (_ & _ & ->)]; [reflexivity |].
  rewrite getAttrDictionary_setAttr.
  destruct (decide (opId op = opId op')); [contradiction | reflexivity].
Qed.

Lemma annotateEscape_keeps state bufferizableOp op ir op' name attr :
  getAttr ir op' name = Some attr ->
  getAttr (annotateEscape state bufferizableOp op ir) op' name = Some attr.
Proof.
  intros Hattr.
  destruct (annotateEscape_cases state bufferizableOp op ir)
    as [-> | (Hmissing & _ & ->)]; [exact Hattr |].
  unfold getAttr in *. rewrite getAttrDictionary_setAttr.
  destruct (decide (opId op = opId op')) as [Hsame | _]; [| exact Hattr].
  rewrite <- (getAttrDictionary_same_id ir _ _ Hsame) in Hattr.
  rewrite lookup_insert. destruct (decide (kEscapeAttrName = name)) as [<- | _];
    [| exact Hattr].
  apply hasAttr_false in Hmissing. unfold getAttr in Hmissing. congruence.
Qed.

(** X1.  The annotator only ever adds the escape attribute of the
    operation it is run on: every attribute that any operation had is
    still there with the same value, an attribute that reads differently
    afterwards is the escape attribute of an operation with the identity
    of [op], and no operation is inserted. *)
Theorem annotator_only_adds_own_escape state bufferizableOp op ir :
  (forall op' name attr,
      getAttr ir op' name = Some attr ->
      getAttr (annotateEscape state bufferizableOp op ir) op' name = Some attr) /\
  (forall op' name,
      getAttr (annotateEscape state bufferizableOp op ir) op' name
        <> getAttr ir op' name ->
      opId op' = opId op /\ name = kEscapeAttrName) /\
  insertedOps (annotateEscape state bufferizableOp op ir) = insertedOps ir.
Proof.
  split; [| split].
  - intros op' name attr. apply annotateEscape_keeps.
  - intros op' name Hchanged.
    destruct (decide (opId op = opId op')) as [Hsame | Hother].
    + split; [symmetry; exact Hsame |].
      destruct (decide (name = kEscapeAttrName)) as [-> | Hname]; [reflexivity |].
      exfalso. apply Hchanged.
      destruct (annotateEscape_cases state bufferizableOp op ir)
        as [-> | (_ & _ & ->)]; [reflexivity |].
      unfold getAttr. rewrite getAttrDictionary_setAttr.
      destruct (decide (opId op = opId op')); [| contradiction].
      rewrite lookup_insert_ne by congruence.
      rewrite (getAttrDictionary_same_id ir _ _ Hsame). reflexivity.
    + exfalso. apply Hchanged. unfold getAttr.
      rewrite annotateEscape_other_dictionary by exact Hother. reflexivity.
  - apply annotateEscape_insertedOps.
Qed.

(** X2.  With [createDeallocs] on and no result of the operation yielded,
    an operation that has a tensor-typed allocating result and no escape
    attribute still receives one: an array of [false], one per result.
    An all-false attribute is thus attached, not left out. *)
Theorem unyielded_allocation_gets_all_false state bufferizableOp op ir :
  hasAttr ir op kEscapeAttrName = false ->
  createDeallocs (getOptions state) = true ->
  (forall r, r ∈ getOpResults op -> isTensorYielded state r = false) ->
  (exists r, r ∈ getOpResults op /\
             isaTensorType (getType r) = true /\
             bufferizesToAllocation bufferizableOp r = true) ->
  getAttr (annotateEscape state bufferizableOp op ir) op kEscapeAttrName =
  Some (BoolArrayAttr (replicate (length (getOpResults op)) false)).
Proof.
  intros Hmissing Hdeallocs Hunyielded (r & Hin & Htensor & Halloc).
  assert (Hfound : existsb (qualifies bufferizableOp) (getOpResults op) = true).
  { apply qualifying_result_found. exists r. split; [exact Hin |].
    unfold qualifies. rewrite Htensor, Halloc. reflexivity. }
  rewrite (annotateEscape_found _ _ _ _ Hmissing Hfound), getAttr_setAttr.
  do 2 f_equal. clear Hin Hfound.
  induction (getOpResults op) as [|r' results IH]; simpl; [reflexivity |].
  f_equal.
  - unfold expectedEscape. rewrite Hdeallocs, (Hunyielded r') by left.
    destruct (qualifies bufferizableOp r'); reflexivity.
  - apply IH. intros r'' Hr''. apply Hunyielded. right. exact Hr''.
Qed.

(** X3.  With [createDeallocs] off, the attribute attached to an
    operation without one marks exactly the tensor-typed allocating
    results: the array is the list of results mapped to "is a tensor and
    allocates", whatever the analysis says about yielding. *)
Theorem without_deallocs_every_allocation_escapes state bufferizableOp op ir :
  hasAttr ir op kEscapeAttrName = false ->
  createDeallocs (getOptions state) = false ->
  (exists r, r ∈ getOpResults op /\
             isaTensorType (getType r) = true /\
             bufferizesToAllocation bufferizableOp r = true) ->
  getAttr (annotateEscape state bufferizableOp op ir) op kEscapeAttrName =
  Some (BoolArrayAttr
          (map (fun r => isaTensorType (getType r)
                         && bufferizesToAllocation bufferizableOp r)
             (getOpResults op))).
Proof.
  intros Hmissing Hdeallocs (r & Hin & Htensor & Halloc).
  assert (Hfound : existsb (qualifies bufferizableOp) (getOpResults op) = true).
  { apply qualifying_result_found. exists r. split; [exact Hin |].
    unfold qualifies. rewrite Htensor, Halloc. reflexivity. }
  rewrite (annotateEscape_found _ _ _ _ Hmissing Hfound), getAttr_setAttr.
  do 2 f_equal. apply map_ext. intros r'.
  unfold expectedEscape, qualifies. rewrite Hdeallocs.
  destruct (isaTensorType (getType r') && bufferizesToAllocation bufferizableOp r');
    reflexivity.
Qed.
End AnnotatorFrame.

(** ** Attributes after a run of the driver *)

Section RunAttributes.
Context `{!ExternalInterfaces}.
Implicit Types (state : AnalysisState) (root o : Operation) (ir : IR).

Lemma hasAttr_opAttrs ir1 ir2 o name :
  opAttrs ir1 = opAttrs ir2 -> hasAttr ir1 o name = hasAttr ir2 o name.
Proof.
  intros Hsame. unfold hasAttr, getAttr, getAttrDictionary.
  rewrite Hsame. reflexivity.
Qed.

Lemma getAttrDictionary_opAttrs ir1 ir2 o :
  opAttrs ir1 = opAttrs ir2 -> getAttrDictionary ir1 o = getAttrDictionary ir2 o.
Proof. intros Hsame. unfold getAttrDictionary. rewrite Hsame. reflexivity. Qed.

Lemma annotateVisited_opAttrs state ir1 ir2 o :
  opAttrs ir1 = opAttrs ir2 ->
  opAttrs (annotateVisited state ir1 o) = opAttrs (annotateVisited state ir2 o).
Proof.
  intros Hsame. unfold annotateVisited.
  destruct (dynCastBufferizableOp _ o) as [bufferizableOp|]; [| exact Hsame].
  unfold annotateEscape. rewrite (hasAttr_opAttrs _ _ _ _ Hsame).
  destruct (hasAttr ir2 o kEscapeAttrName); simpl; [exact Hsame |].
  destruct (escapeLoop state bufferizableOp o) as [escapeAttrValue []];
    [| exact Hsame].
  unfold setAttr. simpl.
  rewrite (getAttrDictionary_opAttrs _ _ _ Hsame), Hsame. reflexivity.
Qed.

Lemma annotateAll_app state l1 l2 ir :
  annotateAll state (l1 ++ l2) ir = annotateAll state l2 (annotateAll state l1 ir).
Proof. unfold annotateAll. apply foldl_app. Qed.

Lemma annotateAll_opAttrs state l ir1 ir2 :
  opAttrs ir1 = opAttrs ir2 ->
  opAttrs (annotateAll state l ir1) = opAttrs (annotateAll state l ir2).
Proof.
  revert ir1 ir2. induction l as [|o l IH]; intros ir1 ir2 Hsame; [exact Hsame |].
  apply IH, annotateVisited_opAttrs, Hsame.
Qed.

(** One visit, seen from the attributes. *)
Lemma walkCallback_opAttrs state o rewriter ir :
  (forall bufferizableOp rewriter' ir',
      dynCastBufferizableOp (getOptions state) o = Some bufferizableOp ->
      opAttrs (resolveConflicts bufferizableOp rewriter' state ir').2.2 = opAttrs ir') ->
  opAttrs (walkCallback state o (rewriter, ir)).2.2 =
  opAttrs (annotateVisited state ir o).
Proof.
  intros Hkeeps. unfold annotateVisited.
  destruct (dynCastBufferizableOp _ o) as [bufferizableOp|] eqn:Hcast.
  - rewrite (walkCallback_bufferizable _ _ _ _ _ Hcast).
    specialize (Hkeeps bufferizableOp (setInsertionPoint rewriter o)
                  (annotateEscape state bufferizableOp o ir) eq_refl).
    destruct (resolveConflicts _ _ _ _) as [resolved s']. exact Hkeeps.
  - unfold walkCallback. rewrite Hcast. reflexivity.
Qed.

Lemma walkEach_opAttrs state l rewriter ir :
  (forall o bufferizableOp rewriter' ir',
      o ∈ l ->
      dynCastBufferizableOp (getOptions state) o = Some bufferizableOp ->
      opAttrs (resolveConflicts bufferizableOp rewriter' state ir').2.2 = opAttrs ir') ->
  (walkEach (walkCallback state) l (rewriter, ir)).1 = Advance ->
  opAttrs (walkEach (walkCallback state) l (rewriter, ir)).2.2 =
  opAttrs (annotateAll state l ir).
Proof.
  revert rewriter ir. induction l as [|o l IH]; intros rewriter ir Hkeeps;
    [reflexivity |].
  cbn [walkEach].
  pose proof (walkCallback_opAttrs state o rewriter ir
                (fun b rw ir' => Hkeeps o b rw ir' (list_elem_of_here _ _))) as Hstep.
  assert (Hrest : forall o' b rw ir', o' ∈ l ->
            dynCastBufferizableOp (getOptions state) o' = Some b ->
            opAttrs (resolveConflicts b rw state ir').2.2 = opAttrs ir').
  { intros o' b rw ir' Hin. apply Hkeeps. right. exact Hin. }
  destruct (walkCallback state o (rewriter, ir)) as [[] [rewriter1 ir1]];
    simpl in Hstep |- *; [discriminate | |];
    intros Hadvance; rewrite (IH rewriter1 ir1 Hrest Hadvance);
    apply annotateAll_opAttrs; exact Hstep.
Qed.

(** The attributes after a run are those of the initial program with the
    annotator applied to the visited operations, in visiting order. *)
Lemma run_opAttrs state root ir :
  resolversKeepAttrs state root ->
  opAttrs (insertTensorCopies_state root state ir).2 =
  opAttrs (annotateAll state (visitedOps state root ir) ir).
Proof.
  intros Hkeeps. rewrite insertTensorCopies_state_walk. simpl. unfold visitedOps.
  pose proof (visited_spec (walkCallback state) root (newIRRewriter, ir)) as Hspec.
  assert (Hin : forall o b rw ir', o ∈ preorder root ->
            dynCastBufferizableOp (getOptions state) o = Some b ->
            opAttrs (resolveConflicts b rw state ir').2.2 = opAttrs ir').
  { intros o b rw ir' Ho. apply Hkeeps, preorder_elem, Ho. }
  rewrite walk_preorder in Hspec |- *.
  destruct (walkEach (walkCallback state) (preorder root) (newIRRewriter, ir))
    as [r s'] eqn:Hrun.
  destruct Hspec as [[-> ->] | [-> (l1 & x & l2 & [rw1 ir1] & Hsplit & -> & Hl1 & Hx)]].
  - pose proof (walkEach_opAttrs state (preorder root) newIRRewriter ir Hin) as Hall.
    rewrite Hrun in Hall. apply Hall. reflexivity.
  - rewrite annotateAll_app. simpl.
    assert (Hin1 : forall o b rw ir', o ∈ l1 ->
              dynCastBufferizableOp (getOptions state) o = Some b ->
              opAttrs (resolveConflicts b rw state ir').2.2 = opAttrs ir').
    { intros o b rw ir' Ho. apply Hin. rewrite Hsplit. apply elem_of_app. left. exact Ho. }
    pose proof (walkEach_opAttrs state l1 newIRRewriter ir Hin1) as Hbefore.
    rewrite Hl1 in Hbefore. simpl in Hbefore. specialize (Hbefore eq_refl).
    pose proof (walkCallback_opAttrs state x rw1 ir1) as Hstep.
    rewrite Hx in Hstep. simpl in Hstep. rewrite Hstep.
    + apply annotateVisited_opAttrs. exact Hbefore.
    + intros b rw ir'. apply Hin. rewrite Hsplit.
      apply elem_of_app. right. left.
Qed.

Lemma annotateVisited_other_dictionary state ir o o' :
  opId o <> opId o' ->
  getAttrDictionary (annotateVisited state ir o) o' = getAttrDictionary ir o'.
Proof.
  intros Hother. unfold annotateVisited.
  destruct (dynCastBufferizableOp _ o); [| reflexivity].
  apply annotateEscape_other_dictionary. exact Hother.
Qed.

Lemma annotateAll_untouched state l ir o' :
  opId o' ∉ opId <$> l ->
  getAttrDictionary (annotateAll state l ir) o' = getAttrDictionary ir o'.
Proof.
  revert ir. induction l as [|o l IH]; intros ir Hfresh; [reflexivity |].
  rewrite fmap_cons, not_elem_of_cons in Hfresh. destruct Hfresh as [Hne Hfresh].
  change (annotateAll state (o :: l) ir)
    with (annotateAll state l (annotateVisited state ir o)).
  rewrite (IH _ Hfresh). apply annotateVisited_other_dictionary. congruence.
Qed.

Lemma annotateVisited_own_dictionary state ir1 ir2 o :
  getAttrDictionary ir1 o = getAttrDictionary ir2 o ->
  getAttrDictionary (annotateVisited state ir1 o) o =
  getAttrDictionary (annotateVisited state ir2 o) o.
Proof.
  intros Hsame. unfold annotateVisited.
  destruct (dynCastBufferizableOp _ o) as [bufferizableOp|]; [| exact Hsame].
  unfold annotateEscape, hasAttr, getAttr. rewrite Hsame.
  destruct (getAttrDictionary ir2 o !! kEscapeAttrName); simpl; [exact Hsame |].
  destruct (escapeLoop state bufferizableOp o) as [escapeAttrValue []];
    [| exact Hsame].
  rewrite !getAttrDictionary_setAttr.
  destruct (decide (opId o = opId o)); [| contradiction].
  rewrite Hsame. reflexivity.
Qed.

Lemma annotateAll_own state l ir o :
  NoDup (opId <$> l) -> o ∈ l ->
  getAttrDictionary (annotateAll state l ir) o =
  getAttrDictionary (annotateVisited state ir o) o.
Proof.
  revert ir. induction l as [|x l IH]; intros ir Hnodup Hin.
  - apply elem_of_nil in Hin. contradiction.
  - rewrite fmap_cons in Hnodup. apply NoDup_cons in Hnodup as [Hfresh Hnodup].
    change (annotateAll state (x :: l) ir)
      with (annotateAll state l (annotateVisited state ir x)).
    apply elem_of_cons in Hin as [-> | Hin].
    + apply annotateAll_untouched. exact Hfresh.
    + rewrite (IH _ Hnodup Hin). apply annotateVisited_own_dictionary.
      apply annotateVisited_other_dictionary.
      intros Hsame. apply Hfresh. rewrite Hsame.
      apply list_elem_of_fmap_2. exact Hin.
Qed.

(** X4.  After a successful run over a tree of distinct operations whose
    conflict resolutions leave attributes alone, the attribute dictionary
    of every operation of the tree is known: unchanged for an operation
    that is not bufferizable, that already had the escape attribute, or
    that has no tensor-typed allocating result; otherwise the old
    dictionary extended by the escape array, one entry per result. *)
Theorem attributes_after_successful_run state root ir o :
  distinctOps root ->
  resolversKeepAttrs state root ->
  (insertTensorCopies_state root state ir).1 = success ->
  inTree o root ->
  getAttrDictionary (insertTensorCopies_state root state ir).2 o =
  match dynCastBufferizableOp (getOptions state) o with
  | None => getAttrDictionary ir o
  | Some bufferizableOp =>
      if hasAttr ir o kEscapeAttrName
         || negb (existsb (qualifies bufferizableOp) (getOpResults o))
      then getAttrDictionary ir o
      else <[kEscapeAttrName :=
               BoolArrayAttr (map (expectedEscape state bufferizableOp)
                                (getOpResults o))]> (getAttrDictionary ir o)
  end.
Proof.
  intros Hdistinct Hkeeps Hok Ho.
  rewrite (getAttrDictionary_opAttrs _ _ _ (run_opAttrs _ _ _ Hkeeps)).
  rewrite (visited_on_success _ _ _ Hok).
  rewrite (annotateAll_own _ _ _ _ Hdistinct (proj2 (preorder_elem _ _) Ho)).
  unfold annotateVisited.
  destruct (dynCastBufferizableOp _ o) as [bufferizableOp|]; [| reflexivity].
  destruct (hasAttr ir o kEscapeAttrName) eqn:Hhas; simpl.
  - rewrite (annotateEscape_present _ _ _ _ Hhas). reflexivity.
  - destruct (existsb (qualifies bufferizableOp) (getOpResults o)) eqn:Hfound; simpl.
    + rewrite (annotateEscape_found _ _ _ _ Hhas Hfound), getAttrDictionary_setAttr.
      destruct (decide (opId o = opId o)); [reflexivity | contradiction].
    + rewrite (annotateEscape_none _ _ _ _ Hfound). reflexivity.
Qed.

(** X5.  Whatever the outcome of a run, an operation whose identity is
    not that of a visited operation keeps its attribute dictionary,
    provided the conflict resolutions leave attributes alone.  This
    covers operations outside the tree and, after a failure, the
    operations that come after the failing one. *)
Theorem unvisited_operations_keep_attributes state root ir o :
  resolversKeepAttrs state root ->
  opId o ∉ opId <$> visitedOps state root ir ->
  getAttrDictionary (insertTensorCopies_state root state ir).2 o =
  getAttrDictionary ir o.
Proof.
  intros Hkeeps Hfresh.
  rewrite (getAttrDictionary_opAttrs _ _ _ (run_opAttrs _ _ _ Hkeeps)).
  apply annotateAll_untouched. exact Hfresh.
Qed.
End RunAttributes.

(** ** Running the driver again *)

Section SecondRun.
Context `{!ExternalInterfaces}.
Implicit Types (state : AnalysisState) (root o : Operation) (ir : IR).








End SecondRun.

(** ** Trees without participants, and the rewriter *)

Section DriverEdges.
Context `{!ExternalInterfaces}.
Implicit Types (state : AnalysisState) (root o : Operation) (ir : IR).

Lemma walkEach_all_skipped {S : Type}
    (callback : Operation -> S -> WalkResult * S) l s :
  (forall o s', o ∈ l -> callback o s' = (Skip, s')) ->
  walkEach callback l s = (Advance, s).
Proof.
  induction l as [|o l IH]; intros Hskip; [reflexivity |].
  cbn [walkEach]. rewrite (Hskip o s (list_elem_of_here _ _)).
  apply IH. intros o' s' Ho'. apply Hskip. right. exact Ho'.
Qed.

(** X7.  On a tree none of whose operations is bufferizable the driver
    succeeds, returns the program it was given, and has visited every
    operation of the tree. *)
Theorem nothing_to_do_without_bufferizable_ops state root ir :
  noneBufferizable state root ->
  insertTensorCopies_state root state ir = (success, ir) /\
  visitedOps state root ir = preorder root.
Proof.
  intros Hnone.
  assert (Hrun : walk (walkCallback state) root (newIRRewriter, ir)
                 = (Advance, (newIRRewriter, ir))).
  { rewrite walk_preorder. apply walkEach_all_skipped.
    intros o [rewriter ir'] Ho. unfold walkCallback.
    rewrite (Hnone o (proj1 (preorder_elem _ _) Ho)). reflexivity. }
  assert (Hresult : insertTensorCopies_state root state ir = (success, ir)).
  { rewrite insertTensorCopies_state_walk, Hrun. reflexivity. }
  split; [exact Hresult |].
  apply visited_on_success. rewrite Hresult. reflexivity.
Qed.

Lemma walkCallback_any_rewriter state o rewriter1 rewriter2 ir :
  (walkCallback state o (rewriter1, ir)).1 = (walkCallback state o (rewriter2, ir)).1 /\
  (walkCallback state o (rewriter1, ir)).2.2 = (walkCallback state o (rewriter2, ir)).2.2.
Proof.
  unfold walkCallback.
  destruct (dynCastBufferizableOp _ o) as [bufferizableOp|]; [| auto].
  unfold setInsertionPoint. destruct (resolveConflicts _ _ _ _) as [[] s']; auto.
Qed.

Lemma walkEach_any_rewriter state l rewriter1 rewriter2 ir :
  (walkEach (walkCallback state) l (rewriter1, ir)).1 =
    (walkEach (walkCallback state) l (rewriter2, ir)).1 /\
  (walkEach (walkCallback state) l (rewriter1, ir)).2.2 =
    (walkEach (walkCallback state) l (rewriter2, ir)).2.2.
Proof.
  revert rewriter1 rewriter2 ir.
  induction l as [|o l IH]; intros rewriter1 rewriter2 ir; [auto |].
  cbn [walkEach].
  destruct (walkCallback_any_rewriter state o rewriter1 rewriter2 ir)
    as [Hresult Hprogram].
  destruct (walkCallback state o (rewriter1, ir)) as [r1 [rw1 ir1]].
  destruct (walkCallback state o (rewriter2, ir)) as [r2 [rw2 ir2]].
  simpl in Hresult, Hprogram. subst r2 ir2.
  destruct r1; [auto | apply IH | apply IH].
Qed.

(** X8.  The driver's outcome does not depend on where the rewriter
    points when the walk starts: the insertion point is set anew in front
    of each bufferizable operation before its conflict resolution is
    asked, so a walk started with any rewriter gives the result and the
    program of the entry point, which starts with a fresh one. *)
Theorem outcome_independent_of_initial_rewriter state root ir rewriter :
  (failureIf (wasInterrupted (walk (walkCallback state) root (rewriter, ir)).1),
   (walk (walkCallback state) root (rewriter, ir)).2.2) =
  insertTensorCopies_state root state ir /\
  (forall o bufferizableOp,
      dynCastBufferizableOp (getOptions state) o = Some bufferizableOp ->
      walkCallback state o (rewriter, ir) =
      (let '(resolved, s') :=
         resolveConflicts bufferizableOp {| insertionPoint := Some (opId o) |}
           state (annotateEscape state bufferizableOp o ir) in
       (if failed resolved then Interrupt else Advance, s'))).
Proof.
  split.
  - rewrite insertTensorCopies_state_walk, !walk_preorder.
    destruct (walkEach_any_rewriter state (preorder root) rewriter newIRRewriter ir)
      as [-> ->]. reflexivity.
  - intros o bufferizableOp Hcast.
    rewrite (walkCallback_bufferizable _ _ _ _ _ Hcast). reflexivity.
Qed.
End DriverEdges.

(** ** Entry point and pass wrapper *)

Section EntryAndPass.
Context `{!ExternalInterfaces}.

(** X9.  The options-based entry point fails for two reasons only: the
    selected analysis failed, and the program is then the one the
    analysis left; or the analysis succeeded, [testAnalysisOnly] is off
    and the resolution run on the analysed state failed.  In
    analysis-only mode a successful analysis is never followed by a
    failure. *)
Theorem options_entry_failure_causes op options ir failedIR :
  insertTensorCopies_options op options ir = Some (failure, failedIR) <->
  exists analysis state' ir',
    upstreamAnalysis op options ir = Some (analysis, (state', ir')) /\
    ((analysis = failure /\ failedIR = ir') \/
     (analysis = success /\ testAnalysisOnly options = false /\
      insertTensorCopies_state op state' ir' = (failure, failedIR))).
Proof.
  rewrite insertTensorCopies_options_analysed.
  destruct (upstreamAnalysis op options ir) as [[analysis [state' ir']]|].
  - split.
    + intros Hfailed. exists analysis, state', ir'. split; [reflexivity |].
      destruct analysis; simpl in Hfailed.
      * right. split; [reflexivity |].
        destruct (testAnalysisOnly options); [discriminate |].
        split; [reflexivity |]. congruence.
      * left. split; [reflexivity | congruence].
    + intros (analysis' & state'' & ir'' & [= <- <- <-] & Hcause).
      destruct Hcause as [[-> ->] | (-> & Honly & Hrun)]; simpl; [reflexivity |].
      rewrite Honly, Hrun. reflexivity.
  - split; [discriminate |].
    intros (analysis & state' & ir' & Habsurd & _). discriminate.
Qed.

(** X10.  A pass created without options takes its three flags and
    nothing else from the command line: [testAnalysisOnly] stays as a
    default-constructed options record has it.  So when that default is
    off and the analysis selected by the flags succeeds, the pass always
    runs the resolution on the analysed state, signals failure exactly
    when that resolution fails, and leaves the program the resolution
    produced. *)
Theorem flag_configured_pass_runs_resolution
    defaultOptions allowReturnAllocsFlag bufferizeFunctionBoundariesFlag
    createDeallocsFlag root ir state' ir' :
  testAnalysisOnly defaultOptions = false ->
  upstreamAnalysis root
    {| allowReturnAllocs := allowReturnAllocsFlag;
       bufferizeFunctionBoundaries := bufferizeFunctionBoundariesFlag;
       createDeallocs := createDeallocsFlag;
       testAnalysisOnly := testAnalysisOnly defaultOptions |} ir
    = Some (success, (state', ir')) ->
  runOnOperation defaultOptions
    (createTensorCopyInsertionPass allowReturnAllocsFlag
       bufferizeFunctionBoundariesFlag createDeallocsFlag) root ir =
  Some (failed (insertTensorCopies_state root state' ir').1,
        (insertTensorCopies_state root state' ir').2).
Proof.
  intros Hdefault Hanalysis.
  unfold runOnOperation, createTensorCopyInsertionPass. simpl.
  rewrite insertTensorCopies_options_analysed, Hanalysis. simpl.
  rewrite Hdefault. simpl.
  destruct (insertTensorCopies_state root state' ir') as [result finalIR].
  reflexivity.
Qed.

(** X11.  Whether a run of the pass has a defined outcome is decided by
    the checked cast alone.  For a pass created with explicit options the
    flags of the pass play no part: the outcome is defined exactly when
    the root is a module whenever those options bufferize function
    boundaries.  For a pass created without options the same holds with
    the flag of the pass in place of the option. *)
Theorem pass_outcome_defined_iff
    defaultOptions options allowReturnAllocsFlag bufferizeFunctionBoundariesFlag
    createDeallocsFlag root ir :
  (is_Some (runOnOperation defaultOptions
              (createTensorCopyInsertionPass_options options allowReturnAllocsFlag
                 bufferizeFunctionBoundariesFlag createDeallocsFlag) root ir) <->
   (bufferizeFunctionBoundaries options = true -> isaModuleOp root = true)) /\
  (is_Some (runOnOperation defaultOptions
              (createTensorCopyInsertionPass allowReturnAllocsFlag
                 bufferizeFunctionBoundariesFlag createDeallocsFlag) root ir) <->
   (bufferizeFunctionBoundariesFlag = true -> isaModuleOp root = true)).
Proof.
  assert (Hentry : forall options',
    is_Some (insertTensorCopies_options root options' ir) <->
    (bufferizeFunctionBoundaries options' = true -> isaModuleOp root = true)).
  { intros options'. rewrite insertTensorCopies_options_analysed.
    unfold upstreamAnalysis.
    destruct (bufferizeFunctionBoundaries options'), (isaModuleOp root); simpl.
    - destruct (analyzeModuleOp _ _ _) as [[] [state' ir']]; simpl;
        destruct (testAnalysisOnly options');
        (split; [auto | intros _; eexists; reflexivity]).
    - split; [intros [result [=]] | intros Habsurd; discriminate (Habsurd eq_refl)].
    - destruct (analyzeOp _ _ _) as [[] [state' ir']]; simpl;
        destruct (testAnalysisOnly options');
        (split; [auto | intros _; eexists; reflexivity]).
    - destruct (analyzeOp _ _ _) as [[] [state' ir']]; simpl;
        destruct (testAnalysisOnly options');
        (split; [discriminate | intros _; eexists; reflexivity]). }
  assert (Hrun : forall options',
    is_Some ('(result, ir') ← insertTensorCopies_options root options' ir;
             Some (failed result, ir')) <->
    is_Some (insertTensorCopies_options root options' ir)).
  { intros options'.
    destruct (insertTensorCopies_options root options' ir) as [[result ir']|]; simpl.
    - split; intros _; eexists; reflexivity.
    - split; intros [x [=]]. }
  split.
  - unfold runOnOperation, createTensorCopyInsertionPass_options. simpl.
    rewrite Hrun. apply Hentry.
  - unfold runOnOperation, createTensorCopyInsertionPass. simpl.
    rewrite Hrun, Hentry. simpl. reflexivity.
Qed.
End EntryAndPass.

(** * The further properties on the sample programs *)

Section FurtherSampleRuns.
Import Sample PlainSample.
#[local] Existing Instance sampleInterfaces.

Lemma sample_resolvers_keep_attrs state root : resolversKeepAttrs state root.
Proof.
  intros o bufferizableOp rewriter ir _. simpl. unfold sampleDynCast.
  repeat case_bool_decide; intros [= <-]; simpl; try reflexivity.
  destruct (isInPlace state (opId o) 0); simpl; [reflexivity |].
  unfold insertBefore. destruct (insertionPoint rewriter); reflexivity.
Qed.

Lemma sample_module_distinct : distinctOps moduleOp.
Proof. unfold distinctOps. apply (bool_decide_unpack _). vm_compute. exact I. Qed.

(** X1 on the two-result operation: the hand-written attribute of the
    allocation survives the annotation of another operation. *)
Lemma annotator_only_adds_own_escape_witness :
  getAttr (annotateEscape (analysed withDeallocs) allocInterface sizeAndAllocOp
             annotatedIR) allocOp kEscapeAttrName = Some (BoolArrayAttr [true]) /\
  insertedOps (annotateEscape (analysed withDeallocs) allocInterface sizeAndAllocOp
                 annotatedIR) = [].
Proof.
  destruct (annotator_only_adds_own_escape (analysed withDeallocs) allocInterface
              sizeAndAllocOp annotatedIR) as (Hkeeps & _ & Hinserted).
  split; [apply Hkeeps; reflexivity | exact Hinserted].
Defined.

(** X2 on the allocation, which the sample analysis does not report as
    yielded. *)
Lemma unyielded_allocation_gets_all_false_witness :
  hasAttr emptyIR allocOp kEscapeAttrName = false /\
  createDeallocs (getOptions (analysed withDeallocs)) = true /\
  getAttr (annotateEscape (analysed withDeallocs) allocInterface allocOp emptyIR)
    allocOp kEscapeAttrName = Some (BoolArrayAttr [false]).
Proof.
  assert (Hmissing : hasAttr emptyIR allocOp kEscapeAttrName = false) by reflexivity.
  assert (Hdeallocs : createDeallocs (getOptions (analysed withDeallocs)) = true)
    by reflexivity.
  split; [exact Hmissing |]. split; [exact Hdeallocs |].
  apply (unyielded_allocation_gets_all_false (analysed withDeallocs)
           allocInterface allocOp emptyIR Hmissing Hdeallocs).
  - intros r Hr. apply list_elem_of_singleton in Hr as ->. reflexivity.
  - exists (mkOpResult 2 0 tensorOf4).
    split; [left |]. split; reflexivity.
Defined.

(** X3 on the two-result operation, with deallocation switched off. *)
Lemma without_deallocs_every_allocation_escapes_witness :
  hasAttr emptyIR sizeAndAllocOp kEscapeAttrName = false /\
  createDeallocs (getOptions (analysed withoutDeallocs)) = false /\
  getAttr (annotateEscape (analysed withoutDeallocs) allocInterface sizeAndAllocOp
             emptyIR) sizeAndAllocOp kEscapeAttrName
    = Some (BoolArrayAttr [false; true]).
Proof.
  assert (Hmissing : hasAttr emptyIR sizeAndAllocOp kEscapeAttrName = false)
    by reflexivity.
  assert (Hdeallocs : createDeallocs (getOptions (analysed withoutDeallocs)) = false)
    by reflexivity.
  split; [exact Hmissing |]. split; [exact Hdeallocs |].
  apply (without_deallocs_every_allocation_escapes (analysed withoutDeallocs)
           allocInterface sizeAndAllocOp emptyIR Hmissing Hdeallocs).
  exists (mkOpResult 4 1 UnrankedTensorType).
  split; [right; left |]. split; reflexivity.
Defined.

(** X4 on the sample module: the two-result operation ends up with the
    escape array and nothing else. *)
Lemma attributes_after_successful_run_witness :
  distinctOps moduleOp /\
  (insertTensorCopies_state moduleOp (analysed withDeallocs) emptyIR).1 = success /\
  getAttrDictionary
    (insertTensorCopies_state moduleOp (analysed withDeallocs) emptyIR).2
    sizeAndAllocOp
  = <[kEscapeAttrName := BoolArrayAttr [false; true]]> ∅.
Proof.
  assert (Hok : (insertTensorCopies_state moduleOp (analysed withDeallocs)
                   emptyIR).1 = success) by reflexivity.
  assert (Hin : inTree sizeAndAllocOp moduleOp).
  { right. eapply nested_deeper; [left | left |].
    eapply nested_direct; [left | right; right; left]. }
  split; [exact sample_module_distinct |]. split; [exact Hok |].
  rewrite (attributes_after_successful_run (analysed withDeallocs) moduleOp emptyIR
             sizeAndAllocOp sample_module_distinct
             (sample_resolvers_keep_attrs _ _) Hok Hin).
  reflexivity.
Defined.

(** X5 on the broken module: the fill, which comes after the failing
    operation, has no attribute afterwards. *)
Lemma unvisited_operations_keep_attributes_witness :
  (insertTensorCopies_state brokenModuleOp (analysed withDeallocs) emptyIR).1
    = failure /\
  getAttrDictionary
    (insertTensorCopies_state brokenModuleOp (analysed withDeallocs) emptyIR).2
    fillOp = ∅.
Proof.
  split; [reflexivity |].
  rewrite (unvisited_operations_keep_attributes (analysed withDeallocs)
             brokenModuleOp emptyIR fillOp (sample_resolvers_keep_attrs _ _)).
  - reflexivity.
  - replace (visitedOps (analysed withDeallocs) brokenModuleOp emptyIR)
      with [brokenModuleOp; brokenFuncOp; allocOp; unresolvableOp] by reflexivity.
    apply (bool_decide_unpack _). vm_compute. exact I.
Defined.


(** X7 on the module without bufferizable operations. *)
Lemma nothing_to_do_without_bufferizable_ops_witness :
  insertTensorCopies_state plainModuleOp (analysed withDeallocs) annotatedIR
    = (success, annotatedIR) /\
  visitedOps (analysed withDeallocs) plainModuleOp annotatedIR
    = [plainModuleOp; plainFuncOp; callOp; plainReturnOp].
Proof.
  apply (nothing_to_do_without_bufferizable_ops (analysed withDeallocs)
           plainModuleOp annotatedIR).
  intros o Ho. apply preorder_elem in Ho. simpl in Ho.
  repeat (apply elem_of_cons in Ho as [-> | Ho]; [reflexivity |]).
  apply elem_of_nil in Ho. contradiction.
Defined.

(** X8 on the sample module, started with a rewriter that points
    elsewhere. *)
Lemma outcome_independent_of_initial_rewriter_witness :
  (failureIf (wasInterrupted
                (walk (walkCallback (analysed withDeallocs)) moduleOp
                   (staleRewriter, emptyIR)).1),
   (walk (walkCallback (analysed withDeallocs)) moduleOp
      (staleRewriter, emptyIR)).2.2)
  = insertTensorCopies_state moduleOp (analysed withDeallocs) emptyIR.
Proof.
  apply (outcome_independent_of_initial_rewriter (analysed withDeallocs) moduleOp
           emptyIR staleRewriter).
Defined.

(** X9 on the broken module: the analysis succeeds, the resolution
    fails. *)
Lemma options_entry_failure_causes_witness :
  exists failedIR,
    insertTensorCopies_options brokenModuleOp withDeallocs emptyIR
      = Some (failure, failedIR).
Proof.
  exists (insertTensorCopies_state brokenModuleOp (analysed withDeallocs) emptyIR).2.
  apply (options_entry_failure_causes brokenModuleOp withDeallocs emptyIR).
  exists success, (analysed withDeallocs), emptyIR.
  split; [reflexivity |]. right.
  split; [reflexivity |]. split; reflexivity.
Defined.

(** X10 on the sample module, with the flags of [withDeallocs]. *)
Lemma flag_configured_pass_runs_resolution_witness :
  testAnalysisOnly sampleDefaults = false /\
  runOnOperation sampleDefaults (createTensorCopyInsertionPass false true true)
    moduleOp emptyIR
  = Some (false,
          (insertTensorCopies_state moduleOp (analysed withDeallocs) emptyIR).2).
Proof.
  split; [reflexivity |].
  rewrite (flag_configured_pass_runs_resolution sampleDefaults false true true
             moduleOp emptyIR (analysed withDeallocs) emptyIR);
    reflexivity.
Defined.

(** X11 on the function as root: undefined with the flag set, defined
    without it. *)
Lemma pass_outcome_defined_iff_witness :
  ~ is_Some (runOnOperation sampleDefaults
               (createTensorCopyInsertionPass false true true) funcOp emptyIR) /\
  is_Some (runOnOperation sampleDefaults
             (createTensorCopyInsertionPass false false true) funcOp emptyIR).
Proof.
  split.
  - intros Hdefined.
    apply (pass_outcome_defined_iff sampleDefaults withDeallocs false true true
             funcOp emptyIR) in Hdefined; [discriminate | reflexivity].
  - apply (pass_outcome_defined_iff sampleDefaults withDeallocs false false true
             funcOp emptyIR). discriminate.
Defined.
End FurtherSampleRuns.
